(** * FitTrackee sink folder service

    A shallow embedding of
    [fittrackee/workouts/services/sink_folder_service.py] and the
    properties of its path parser, file processor, outcome router and
    recovery sweep.

    Python strings are modelled as [string] (ASCII code points), paths are
    POSIX paths, the file system holds regular files and directories only
    (no symbolic links, no permissions), and the logger, the clock and the
    two database tables the service reads are fields of an explicit world
    that every effectful function threads. *)

From Stdlib Require Import ZArith Ascii String List Lia.
From stdpp Require Import base option list strings gmap pretty.

(* ===================================================================== *)
(** * Part I: definitions *)
(* ===================================================================== *)

(** ** Python string primitives *)

Module PyStr.

(** [s.split(sep)] for a one-character separator. *)
Fixpoint split (sep : ascii) (s : string) : list string :=
  match s with
  | "" => [""]
  | String c s' =>
      if decide (c = sep) then "" :: split sep s'
      else match split sep s' with
           | x :: r => String c x :: r
           | [] => [String c ""]
           end
  end.

(** [s.lstrip(c)] for a one-character set. *)
Fixpoint lstrip (c : ascii) (s : string) : string :=
  match s with
  | String a s' => if decide (a = c) then lstrip c s' else s
  | "" => ""
  end.

(** [s.rstrip(c)]. *)
Fixpoint rstrip (c : ascii) (s : string) : string :=
  match s with
  | "" => ""
  | String a s' =>
      match rstrip c s' with
      | "" => if decide (a = c) then "" else String a ""
      | r => String a r
      end
  end.

Definition lower_char (c : ascii) : ascii :=
  let n := nat_of_ascii c in
  if (65 <=? n)%nat && (n <=? 90)%nat then ascii_of_nat (n + 32) else c.

(** [s.lower()] on ASCII text. *)
Fixpoint lower (s : string) : string :=
  match s with
  | "" => ""
  | String c s' => String (lower_char c) (lower s')
  end.

(** [s.startswith(c)]. *)
Definition startswith (c : ascii) (s : string) : bool :=
  match s with
  | String a _ => bool_decide (a = c)
  | "" => false
  end.

(** [s.endswith(c)]. *)
Fixpoint endswith (c : ascii) (s : string) : bool :=
  match s with
  | "" => false
  | String a "" => bool_decide (a = c)
  | String _ s' => endswith c s'
  end.

(** [s.rpartition(c)] when [c] occurs in [s]: the text before the last
    [c] and the text after it; [None] when [c] does not occur, which is
    where [s.rfind(c)] is [-1]. *)
Fixpoint rsplit1 (c : ascii) (s : string) : option (string * string) :=
  match s with
  | "" => None
  | String a s' =>
      match rsplit1 c s' with
      | Some (pre, post) => Some (String a pre, post)
      | None => if decide (a = c) then Some ("", s') else None
      end
  end.

(** Whether every character of [s] is [c]. *)
Fixpoint all_char (c : ascii) (s : string) : bool :=
  match s with
  | "" => true
  | String a s' => bool_decide (a = c) && all_char c s'
  end.

(** The characters that [int] skips around a number in ASCII text: tab,
    line feed, vertical tab, form feed, carriage return and space. The
    separators 28 to 31, which [str.isspace] accepts, are not skipped:
    [int] raises on them. *)
Definition is_space (c : ascii) : bool :=
  let n := nat_of_ascii c in
  ((9 <=? n)%nat && (n <=? 13)%nat) || (n =? 32)%nat.

Fixpoint lstrip_space (s : string) : string :=
  match s with
  | String a s' => if is_space a then lstrip_space s' else s
  | "" => ""
  end.

Fixpoint rstrip_space (s : string) : string :=
  match s with
  | "" => ""
  | String a s' =>
      match rstrip_space s' with
      | "" => if is_space a then "" else String a ""
      | r => String a r
      end
  end.

Definition digit_value (c : ascii) : option Z :=
  let n := nat_of_ascii c in
  if (48 <=? n)%nat && (n <=? 57)%nat then Some (Z.of_nat (n - 48)) else None.

(** The digits of a decimal literal after the first one: a single
    underscore may separate two digits. [prev_us] tells that the previous
    character was an underscore. *)
Fixpoint int_digits (acc : Z) (prev_us : bool) (s : string) : option Z :=
  match s with
  | "" => if prev_us then None else Some acc
  | String c s' =>
      match digit_value c with
      | Some d => int_digits (10 * acc + d) false s'
      | None =>
          if decide (c = "_"%char)
          then if prev_us then None else int_digits acc true s'
          else None
      end
  end.

(** [sys.int_max_str_digits], at its default: [int] raises on a text of
    more digits, and [str] on a number of more digits. *)
Definition int_max_str_digits : nat := 4300.

(** The number of digits of a text. *)
Fixpoint count_digits (s : string) : nat :=
  match s with
  | "" => 0
  | String c s' =>
      match digit_value c with
      | Some _ => S (count_digits s')
      | None => count_digits s'
      end
  end.

(** An unsigned decimal literal: it starts with a digit, and it has no
    more digits than the limit. *)
Definition int_unsigned (s : string) : option Z :=
  match s with
  | "" => None
  | String c s' =>
      match digit_value c with
      | Some d =>
          if (int_max_str_digits <? count_digits s)%nat then None
          else int_digits d false s'
      | None => None
      end
  end.

(** [int(s)] in base ten: [Some n] for the value, [None] where Python
    raises [ValueError]. *)
Definition int (s : string) : option Z :=
  match rstrip_space (lstrip_space s) with
  | String "-" s' => Z.opp <$> int_unsigned s'
  | String "+" s' => int_unsigned s'
  | s' => int_unsigned s'
  end.

(** [sub in l] for a list of strings. *)
Definition mem (x : string) (l : list string) : bool := bool_decide (x ∈ l).

(** [l.index(x)]: [None] where Python raises [ValueError]. *)
Fixpoint index (x : string) (l : list string) : option nat :=
  match l with
  | [] => None
  | y :: r => if decide (y = x) then Some 0 else S <$> index x r
  end.

End PyStr.

(** ** [pathlib.PurePosixPath] *)

Module PurePath.

Definition sep : ascii := "/"%char.

(** The components of a path after its anchor: empty components and
    [.] are dropped, [..] is kept. *)
Definition segments (p : string) : list string :=
  filter (λ x, x ≠ "" ∧ x ≠ ".") (PyStr.split sep p).

(** The anchor, as [splitroot] finds it: exactly two leading slashes
    are kept as they are, any other number collapses to one. *)
Definition anchor (p : string) : list string :=
  match p with
  | String "/" (String "/" (String "/" _)) => ["/"]
  | String "/" (String "/" _) => ["//"]
  | String "/" _ => ["/"]
  | _ => []
  end.

(** [Path(p).parts]. *)
Definition parts (p : string) : list string := anchor p ++ segments p.

(** [Path(p).name]: the last component, empty when the path is only an
    anchor or is empty. *)
Definition name (p : string) : string := List.last (segments p) "".

(** [Path(p).suffix]: from the last dot of the name, when that dot is
    neither the first nor the last character of the name. *)
Definition suffix (p : string) : string :=
  match PyStr.rsplit1 "." (name p) with
  | Some (String a pre, String b post) => String "." (String b post)
  | _ => ""
  end.

End PurePath.

(** ** [os.path] *)

Module OsPath.

(** [os.path.join(a, b)]. *)
Definition join (a b : string) : string :=
  if PyStr.startswith "/" b then b
  else if bool_decide (a = "") || PyStr.endswith "/" a then a +:+ b
  else a +:+ "/" +:+ b.

Definition join3 (a b c : string) : string := join (join a b) c.

(** [os.path.split(p)]: the text up to the last slash, without its
    trailing slashes unless it holds nothing else, and the text after
    it. *)
Definition split (p : string) : string * string :=
  match PyStr.rsplit1 "/" p with
  | Some (pre, post) =>
      let head := pre +:+ "/" in
      (if PyStr.all_char "/" head then head else PyStr.rstrip "/" head, post)
  | None => ("", p)
  end.

(** [os.path.splitext(p)] for a [p] without separator: the split is at
    the last dot unless only dots come before it. *)
Definition splitext (p : string) : string * string :=
  match PyStr.rsplit1 "." p with
  | Some (pre, post) =>
      if PyStr.all_char "." pre then (p, "") else (pre, String "." post)
  | None => (p, "")
  end.

End OsPath.

(** ** Exceptions *)

Inductive exn :=
| ValueError (msg : string)
| FileNotFoundError (path : string)
| FileExistsError (path : string)
| NotADirectoryError (path : string)
| IsADirectoryError (path : string)
| ShutilError (msg : string)
| RuntimeError (msg : string).

(** [str(e)]. *)
Definition str_exn (e : exn) : string :=
  match e with
  | ValueError m => m
  | FileNotFoundError p => "[Errno 2] No such file or directory: '" +:+ p +:+ "'"
  | FileExistsError p => "[Errno 17] File exists: '" +:+ p +:+ "'"
  | NotADirectoryError p => "[Errno 20] Not a directory: '" +:+ p +:+ "'"
  | IsADirectoryError p => "[Errno 21] Is a directory: '" +:+ p +:+ "'"
  | ShutilError m => m
  | RuntimeError m => m
  end.

(** ** The file system *)

Module Fs.

Inductive node :=
| File (content : string)
| Dir.

#[global] Instance node_eq_dec : EqDecision node.
Proof. solve_decision. Defined.

(** A file system maps resolved paths to nodes; the root directory is
    the empty path and always exists. *)
Abbreviation t := (gmap (list string) node).

(** Path resolution: the components of the path, relative paths being
    taken from the root directory. *)
Definition resolve (p : string) : list string := PurePath.segments p.

Definition lookup (fs : t) (k : list string) : option node :=
  match k with
  | [] => Some Dir
  | _ => fs !! k
  end.

Definition is_dir (fs : t) (k : list string) : bool :=
  match lookup fs k with
  | Some Dir => true
  | _ => false
  end.

Definition is_present (fs : t) (k : list string) : bool :=
  match lookup fs k with
  | Some _ => true
  | None => false
  end.

Definition parent (k : list string) : list string := removelast k.

(** Whether the walk from the root along [todo] meets a regular file
    before the end of the path: there the system answers ENOTDIR, where
    it answers ENOENT for a component that is not there. *)
Fixpoint not_a_directory (fs : t) (seen todo : list string) : bool :=
  match todo with
  | [] => false
  | c :: rest =>
      match fs !! (seen ++ [c]) with
      | Some (File _) =>
          match rest with
          | [] => false
          | _ => true
          end
      | Some Dir => not_a_directory fs (seen ++ [c]) rest
      | None => false
      end
  end.

(** The exception of a system call on the path [p], resolved to [k],
    that finds nothing there. *)
Definition missing (p : string) (fs : t) (k : list string) : exn :=
  if not_a_directory fs [] k then NotADirectoryError p
  else FileNotFoundError p.

(** The path [os.makedirs(name)] calls itself on: the head of [name], or
    the head of that head when [name] ends in a slash. *)
Definition makedirs_head (name : string) : string :=
  let '(head, tail) := OsPath.split name in
  if bool_decide (tail = "") then (OsPath.split head).1 else head.

(** The path of the [os.mkdir] that fails when a regular file stands on
    the way: [os.makedirs(name)] calls itself on its head as long as the
    head does not exist, so the directory it cannot make is the first one
    below the regular file, the path of [n] components among [name] and
    its heads. *)
Fixpoint makedirs_failing (fuel : nat) (name : string) (n : nat) : string :=
  match fuel with
  | 0 => name
  | S fuel' =>
      let head := makedirs_head name in
      if (n <=? length (resolve head))%nat
      then makedirs_failing fuel' head n
      else name
  end.

(** [os.makedirs(p, exist_ok=True)], one component after the other:
    [seen] is the part of the path that is known to be a directory. A
    regular file at the end of the path makes [os.mkdir(p)] raise
    [FileExistsError]; a regular file before the end makes the
    [os.mkdir] of the directory below it raise [NotADirectoryError]. *)
Fixpoint makedirs_go (p : string) (seen todo : list string) (fs : t)
  : exn + t :=
  match todo with
  | [] => inr fs
  | c :: rest =>
      let q := seen ++ [c] in
      match fs !! q with
      | Some Dir => makedirs_go p q rest fs
      | Some (File _) =>
          inl (match rest with
               | [] => FileExistsError p
               | _ =>
                   NotADirectoryError
                     (makedirs_failing (String.length p) p (S (length q)))
               end)
      | None => makedirs_go p q rest (<[q := Dir]> fs)
      end
  end.

Definition makedirs (p : string) (fs : t) : exn + t :=
  makedirs_go p [] (resolve p) fs.

(** [os.path.basename(p.rstrip("/"))], the name [shutil.move] gives a
    file that is moved into a directory. *)
Definition basename (p : string) : string :=
  List.last (PyStr.split "/" (PyStr.rstrip "/" p)) "".

(** The entries below [src], re-rooted at [dst]. *)
Definition rename_tree (src dst : list string) (fs : t) : t :=
  list_to_map
    ((λ kv : list string * node, (dst ++ drop (length src) kv.1, kv.2))
       <$> map_to_list (filter (λ kv, src `prefix_of` kv.1) fs))
  ∪ filter (λ kv, ¬ src `prefix_of` kv.1) fs.

(** [shutil.move(src, dst)] on one file system. Where [os.rename]
    fails, a regular file is copied with [open], which raises when the
    folder of the destination is not there, and a directory is copied
    with [copytree], which makes the folders of the destination. *)
Definition move (src dst : string) (fs : t) : exn + t :=
  let s := resolve src in
  let d := resolve dst in
  let into := is_dir fs d in
  let real := if into then resolve (OsPath.join dst (basename src)) else d in
  if into && is_present fs real
  then inl (ShutilError ("Destination path '" +:+ OsPath.join dst (basename src)
                         +:+ "' already exists"))
  else
    match lookup fs s with
    | None => inl (missing src fs s)
    | Some (File c) =>
        if is_dir fs (parent real)
        then inr (<[real := File c]> (delete s fs))
        else inl (missing dst fs real)
    | Some Dir =>
        if bool_decide (s `prefix_of` real)
        then inl (ShutilError ("Cannot move a directory '" +:+ src
                               +:+ "' into itself '" +:+ dst +:+ "'."))
        else if is_present fs real then inl (FileExistsError dst)
        else if is_dir fs (parent real) then inr (rename_tree s real fs)
        else
          match makedirs dst fs with
          | inr fs' => inr (rename_tree s real fs')
          | inl e => inl e
          end
    end.

(** [os.path.exists(p)]. *)
Definition path_exists (p : string) (fs : t) : bool :=
  is_present fs (resolve p).

(** [with open(p, "rb") as f: f.read()]. *)
Definition read (p : string) (fs : t) : exn + string :=
  match lookup fs (resolve p) with
  | Some (File c) => inr c
  | Some Dir => inl (IsADirectoryError p)
  | None => inl (missing p fs (resolve p))
  end.

(** [with open(p, "w") as f: f.write(content)]. *)
Definition write (p content : string) (fs : t) : exn + t :=
  let k := resolve p in
  match lookup fs k with
  | Some Dir => inl (IsADirectoryError p)
  | _ =>
      if is_dir fs (parent k) then inr (<[k := File content]> fs)
      else inl (missing p fs k)
  end.

End Fs.

(** ** [datetime] *)

Record datetime := {
  year : nat; month : nat; day : nat;
  hour : nat; minute : nat; second : nat; microsecond : nat
}.

(** A decimal number, zero-padded on the left to [width] digits. *)
Definition zero_pad (width n : nat) : string :=
  let s := pretty n in
  String.concat "" (replicate (width - String.length s) "0") +:+ s.

(** [d.strftime("%Y%m%d_%H%M%S")]. *)
Definition strftime_stamp (d : datetime) : string :=
  zero_pad 4 (year d) +:+ zero_pad 2 (month d) +:+ zero_pad 2 (day d) +:+ "_"
  +:+ zero_pad 2 (hour d) +:+ zero_pad 2 (minute d) +:+ zero_pad 2 (second d).

(** [d.isoformat()] for a [d] in UTC. *)
Definition isoformat (d : datetime) : string :=
  zero_pad 4 (year d) +:+ "-" +:+ zero_pad 2 (month d) +:+ "-"
  +:+ zero_pad 2 (day d) +:+ "T" +:+ zero_pad 2 (hour d) +:+ ":"
  +:+ zero_pad 2 (minute d) +:+ ":" +:+ zero_pad 2 (second d)
  +:+ (match microsecond d with
       | O => ""
       | us => "." +:+ zero_pad 6 us
       end)
  +:+ "+00:00".

(** ** The database tables the service reads *)

Module User.
Record t := { username : string; suspended_at : option datetime }.
End User.

Module Sport.
Record t := { id : Z; label : string }.
End Sport.

Record Workout := { short_id : string; sport_label : string }.

(** ** The world and the monad of effects *)

Inductive level := DEBUG | INFO | WARNING | ERROR.

Record World := {
  fs : Fs.t;
  users : list User.t;
  sports : list Sport.t;
  log : list (level * string);
  clock : nat → datetime;   (* what the n-th reading of the clock gives *)
  ticks : nat               (* the clock readings made so far *)
}.

Definition with_fs (f : Fs.t) (w : World) : World :=
  {| fs := f; users := users w; sports := sports w; log := log w;
     clock := clock w; ticks := ticks w |}.

Definition with_log (l : list (level * string)) (w : World) : World :=
  {| fs := fs w; users := users w; sports := sports w; log := l;
     clock := clock w; ticks := ticks w |}.

Definition with_ticks (n : nat) (w : World) : World :=
  {| fs := fs w; users := users w; sports := sports w; log := log w;
     clock := clock w; ticks := n |}.

(** The result of a call: it returns a value or raises, and leaves a world
    either way. *)
Inductive Res (A : Type) :=
| Ret (a : A) (w : World)
| Raise (e : exn) (w : World).
Arguments Ret {A} a w.
Arguments Raise {A} e w.

Definition M (A : Type) : Type := World → Res A.

Definition ret {A} (a : A) : M A := λ w, Ret a w.

Definition raise {A} (e : exn) : M A := λ w, Raise e w.

Definition bind {A B} (m : M A) (k : A → M B) : M B :=
  λ w, match m w with
       | Ret a w' => k a w'
       | Raise e w' => Raise e w'
       end.

(** [try: m except Exception as e: h e]. *)
Definition try_except {A} (m : M A) (h : exn → M A) : M A :=
  λ w, match m w with
       | Ret a w' => Ret a w'
       | Raise e w' => h e w'
       end.

(** [try: x = m except Exception as e: ...] where the code goes on after
    the statement: the exception, or the value. *)
Definition attempt {A} (m : M A) : M (exn + A) :=
  λ w, match m w with
       | Ret a w' => Ret (inr a) w'
       | Raise e w' => Ret (inl e) w'
       end.

#[global] Instance M_ret : MRet M := @ret.
#[global] Instance M_bind : MBind M := λ A B k m, bind m k.

(** The world a call leaves, whether it returned or raised. *)
Definition world_of {A} (r : Res A) : World :=
  match r with
  | Ret _ w => w
  | Raise _ w => w
  end.

Definition raised {A} (r : Res A) : bool :=
  match r with
  | Ret _ _ => false
  | Raise _ _ => true
  end.

(** From a file-system operation to an effect. *)
Definition fs_update (op : Fs.t → exn + Fs.t) : M unit :=
  λ w, match op (fs w) with
       | inr f => Ret tt (with_fs f w)
       | inl e => Raise e w
       end.

Definition fs_query {A} (op : Fs.t → exn + A) : M A :=
  λ w, match op (fs w) with
       | inr a => Ret a w
       | inl e => Raise e w
       end.

Definition os_makedirs (p : string) : M unit := fs_update (Fs.makedirs p).
Definition shutil_move (src dst : string) : M unit := fs_update (Fs.move src dst).
Definition os_path_exists (p : string) : M bool :=
  λ w, Ret (Fs.path_exists p (fs w)) w.
Definition read_bytes (p : string) : M string := fs_query (Fs.read p).
Definition write_text (p content : string) : M unit :=
  fs_update (Fs.write p content).

(** [datetime.now(tz=timezone.utc)]. *)
Definition datetime_now : M datetime :=
  λ w, Ret (clock w (ticks w)) (with_ticks (S (ticks w)) w).

Definition logger (lvl : level) (msg : string) : M unit :=
  λ w, Ret tt (with_log (log w ++ [(lvl, msg)]) w).

(** [User.query.filter_by(username=username).first()]. *)
Definition User_query_first (username : string) : M (option User.t) :=
  λ w, Ret (head (filter (λ u, User.username u = username) (users w))) w.

(** [Sport.query.filter_by(id=sport_id).first()]. *)
Definition Sport_query_first (sport_id : Z) : M (option Sport.t) :=
  λ w, Ret (head (filter (λ s, Sport.id s = sport_id) (sports w))) w.

(** ** The service: configuration and collaborators *)

Definition DEFAULT_SPORT_ID : Z := 1.
Definition SINK_FOLDER_NAME : string := "sink".
Definition PROCESSED_FOLDER_NAME : string := "processed".
Definition ERROR_FOLDER_NAME : string := "error".

(** What the module imports from the rest of the application: the upload
    folder of the Flask configuration, the set of workout file extensions,
    the service that creates workouts from a file (it returns the created
    workouts and [str] of the [errored_workouts] of its output, or raises)
    and the rollback of the database session. *)
Record App := {
  UPLOAD_FOLDER : string;
  WORKOUT_ALLOWED_EXTENSIONS : list string;
  WorkoutsFromFileCreationService :
    User.t → Z → string → string → M (list Workout * string);
  db_session_rollback : M unit
}.

Definition newline : string := String (ascii_of_nat 10) "".

(** ** [WorkoutFileHandler] *)

(** [_parse_file_path]: the user found under the first component after
    [sink] and the sport id; [ValueError] when the path has no [sink]
    component or fewer than two components after it. *)
Definition _parse_file_path (file_path : string) : M (option User.t * Z) :=
  let parts := PurePath.parts file_path in
  match PyStr.index SINK_FOLDER_NAME parts with
  | None => raise (ValueError ("'" +:+ SINK_FOLDER_NAME +:+ "' not found in path"))
  | Some sink_index =>
      let remaining_parts := drop (sink_index + 1) parts in
      if (length remaining_parts <? 2)%nat
      then raise (ValueError ("Invalid path structure. Expected: sink/username/file or "
                              +:+ "sink/username/sport_id/file"))
      else
        let username := nth 0 remaining_parts "" in
        let sport_id :=
          if (length remaining_parts =? 2)%nat then DEFAULT_SPORT_ID
          else if (length remaining_parts =? 3)%nat then
            match PyStr.int (nth 1 remaining_parts "") with
            | Some n => n
            | None => DEFAULT_SPORT_ID
            end
          else DEFAULT_SPORT_ID in
        user ← User_query_first username;
        mret (user, sport_id)
  end.

Definition _get_sink_folder (app : App) : string :=
  OsPath.join (UPLOAD_FOLDER app) SINK_FOLDER_NAME.

(** The name [_move_file] gives the file when the destination is taken:
    the time stamp goes before the extension. *)
Definition stamped_filename (filename : string) (now : datetime) : string :=
  let timestamp := strftime_stamp now in
  let '(name, ext) := OsPath.splitext filename in
  name +:+ "_" +:+ timestamp +:+ ext.

Definition _move_file (app : App) (file_path dest_type username : string)
  : M unit :=
  let sink_folder := _get_sink_folder app in
  let dest_folder := OsPath.join3 sink_folder dest_type username in
  os_makedirs dest_folder;;
  let filename := PurePath.name file_path in
  let dest_path := OsPath.join dest_folder filename in
  taken ← os_path_exists dest_path;
  dest_path ← (if taken : bool then
                 now ← datetime_now;
                 mret (OsPath.join dest_folder (stamped_filename filename now))
               else mret dest_path);
  try_except
    (shutil_move file_path dest_path;;
     logger DEBUG ("Moved " +:+ file_path +:+ " to " +:+ dest_path))
    (λ e, logger ERROR ("Failed to move file " +:+ file_path +:+ ": "
                        +:+ str_exn e)).

Definition _move_to_processed (app : App) (file_path username : string)
  : M unit :=
  _move_file app file_path PROCESSED_FOLDER_NAME username.

(** The user name [_move_to_error] takes from the path: the component
    after [sink] when there is one, [unknown] otherwise. *)
Definition error_username (file_path : string) : string :=
  let parts := PurePath.parts file_path in
  match PyStr.index SINK_FOLDER_NAME parts with
  | Some sink_index =>
      if (sink_index + 1 <? length parts)%nat
      then nth (sink_index + 1) parts ""
      else "unknown"
  | None => "unknown"
  end.

(** The text of the companion file. *)
Definition error_content (now : datetime) (error_msg : string) : string :=
  "Timestamp: " +:+ isoformat now +:+ newline
  +:+ "Error: " +:+ error_msg +:+ newline.

Definition _move_to_error (app : App) (file_path error_msg : string)
  : M unit :=
  let username := error_username file_path in
  _move_file app file_path ERROR_FOLDER_NAME username;;
  try_except
    (now ← datetime_now;
     let sink_folder := _get_sink_folder app in
     let dest_folder := OsPath.join3 sink_folder ERROR_FOLDER_NAME username in
     os_makedirs dest_folder;;
     let filename := PurePath.name file_path in
     let error_dest := OsPath.join dest_folder (filename +:+ ".error") in
     write_text error_dest (error_content now error_msg))
    (λ e, logger WARNING ("Failed to write error file: " +:+ str_exn e)).

Definition _process_file (app : App) (file_path : string) : M unit :=
  let filename := PurePath.name file_path in
  logger INFO ("Processing file: " +:+ file_path);;
  parsed ← attempt (_parse_file_path file_path);
  match parsed with
  | inl e =>
      logger ERROR ("Failed to parse file path: " +:+ str_exn e);;
      _move_to_error app file_path (str_exn e)
  | inr (None, _) =>
      logger ERROR ("Could not determine user for file: " +:+ file_path);;
      _move_to_error app file_path "Could not determine user"
  | inr (Some user, sport_id) =>
      sport ← Sport_query_first sport_id;
      match sport with
      | None =>
          logger ERROR ("Sport ID " +:+ pretty sport_id +:+ " not found");;
          _move_to_error app file_path
            ("Sport ID " +:+ pretty sport_id +:+ " not found")
      | Some _ =>
          match User.suspended_at user with
          | Some _ =>
              logger ERROR ("User " +:+ User.username user +:+ " is suspended");;
              _move_to_error app file_path
                ("User " +:+ User.username user +:+ " is suspended")
          | None =>
              read ← attempt (read_bytes file_path);
              match read with
              | inl e =>
                  logger ERROR ("Failed to read file: " +:+ str_exn e);;
                  _move_to_error app file_path (str_exn e)
              | inr file_content =>
                  try_except
                    (out ← WorkoutsFromFileCreationService app user sport_id
                             filename file_content;
                     match out.1 with
                     | workout :: _ =>
                         logger INFO
                           ("Successfully imported workout for user "
                            +:+ User.username user +:+ ": "
                            +:+ short_id workout +:+ " ("
                            +:+ sport_label workout +:+ ")");;
                         _move_to_processed app file_path (User.username user)
                     | [] =>
                         logger ERROR ("Failed to create workout: " +:+ out.2);;
                         _move_to_error app file_path out.2
                     end)
                    (λ e,
                      db_session_rollback app;;
                      logger ERROR ("Error processing workout: " +:+ str_exn e);;
                      _move_to_error app file_path (str_exn e))
              end
          end
      end
  end.

(** A file system event: [event.is_directory] and [event.src_path]. *)
Record FileCreatedEvent := { is_directory : bool; src_path : string }.

(** The extension test of [on_created] and of the sweep:
    [Path(p).suffix.lower().lstrip(".") in WORKOUT_ALLOWED_EXTENSIONS]. *)
Definition extension (p : string) : string :=
  PyStr.lstrip "." (PyStr.lower (PurePath.suffix p)).

Definition allowed_extension (app : App) (p : string) : bool :=
  PyStr.mem (extension p) (WORKOUT_ALLOWED_EXTENSIONS app).

(** [on_created]. The half second of [time.sleep] changes nothing in the
    world of the model. *)
Definition on_created (app : App) (event : FileCreatedEvent) : M unit :=
  if is_directory event then mret tt
  else
    let file_path := src_path event in
    if negb (allowed_extension app file_path) then mret tt
    else _process_file app file_path.

(** ** [SinkFolderWatcher] *)

Definition get_sink_folder_path (app : App) : string :=
  OsPath.join (UPLOAD_FOLDER app) SINK_FOLDER_NAME.

(** [setup_folders]. The text of the second message is the one of the
    source, its characters outside ASCII standing as their UTF-8 bytes. *)
Definition setup_folders (app : App) : M unit :=
  let sink_folder := get_sink_folder_path app in
  os_makedirs sink_folder;;
  os_makedirs (OsPath.join sink_folder PROCESSED_FOLDER_NAME);;
  os_makedirs (OsPath.join sink_folder ERROR_FOLDER_NAME);;
  logger INFO ("Sink folder initialized at: " +:+ sink_folder);;
  logger INFO
    ("Structure:" +:+ newline
     +:+ "  " +:+ sink_folder +:+ "/" +:+ newline
     +:+ "    ├── {username}/           # Place files here per user" +:+ newline
     +:+ "    │   └── {sport_id}/       # Optional: subfolder for sport" +:+ newline
     +:+ "    ├── " +:+ PROCESSED_FOLDER_NAME
     +:+ "/            # Successfully processed files" +:+ newline
     +:+ "    └── " +:+ ERROR_FOLDER_NAME
     +:+ "/                 # Failed files").

(** What [os.walk] finds in a directory: its sub-directories, each with
    what is below it, and its other entries, in the order of the listing. *)
#[warnings="-register-all"] Inductive dtree :=
| Dnode (dirs : list (string * dtree)) (files : list string).

(** The filter the sweep applies to [dirs] in place. *)
Definition keep_dir (d : string) : bool :=
  negb (PyStr.mem d [PROCESSED_FOLDER_NAME; ERROR_FOLDER_NAME]).

(** The loop over the files of one directory. *)
Fixpoint sweep_files (process : string → M unit) (root : string)
    (files : list string) (is_allowed : string → bool) (count : Z) : M Z :=
  match files with
  | [] => mret count
  | filename :: rest =>
      if is_allowed filename then
        let file_path := OsPath.join root filename in
        logger INFO ("Processing existing file: " +:+ file_path);;
        process file_path;;
        sweep_files process root rest is_allowed (count + 1)%Z
      else sweep_files process root rest is_allowed count
  end.

(** The loop over [os.walk(root)], top down: the files of a directory,
    then the sub-directories that the filter left in [dirs]. *)
Fixpoint sweep_walk (process : string → M unit) (is_allowed : string → bool)
    (root : string) (tree : dtree) (count : Z) : M Z :=
  match tree with
  | Dnode dirs files =>
      count ← sweep_files process root files is_allowed count;
      (fix walk_dirs (dirs : list (string * dtree)) (count : Z) : M Z :=
         match dirs with
         | [] => mret count
         | (d, sub) :: rest =>
             if keep_dir d then
               count ← sweep_walk process is_allowed (OsPath.join root d) sub count;
               walk_dirs rest count
             else walk_dirs rest count
         end) dirs count
  end.

(** [process_existing_files], on what [os.walk] finds below the sink
    folder. *)
Definition process_existing_files (app : App) (tree : dtree) : M Z :=
  let sink_folder := get_sink_folder_path app in
  sweep_walk (_process_file app) (allowed_extension app) sink_folder tree 0%Z.

(** ** Notions the statements use *)

(** Whether the character [c] occurs in [s]. *)
Fixpoint has_char (c : ascii) (s : string) : bool :=
  match s with
  | "" => false
  | String a s' => bool_decide (a = c) || has_char c s'
  end.



(** A path component: a name that path resolution takes as it is. *)
Definition component (x : string) : Prop :=
  has_char "/" x = false ∧ x ≠ "" ∧ x ≠ ".".


(** The outcome of parsing without the user: the sport id, or the
    exception. *)
Definition parse_outcome (r : Res (option User.t * Z)) : exn + Z :=
  match r with
  | Ret v _ => inr v.2
  | Raise e _ => inl e
  end.

(** The value a call returned. *)
Definition value_of {A} (r : Res A) : option A :=
  match r with
  | Ret a _ => Some a
  | Raise _ _ => None
  end.

(** The exception a call raised. *)
Definition exception_of {A} (r : Res A) : option exn :=
  match r with
  | Raise e _ => Some e
  | Ret _ _ => None
  end.

(** The file system an operation on the file system leaves; the one it
    was given, where it raises. *)
Definition fs_after (op : Fs.t → exn + Fs.t) (f : Fs.t) : Fs.t :=
  match op f with
  | inr f' => f'
  | inl _ => f
  end.

(** Whether an operation gave a value. *)
Definition succeeds {A} (r : exn + A) : bool :=
  match r with
  | inr _ => true
  | inl _ => false
  end.

(** Every entry [os.walk] lists as a file below a directory, in the order
    of the walk, each with the names of the directories that lead to it. *)
Fixpoint tree_files (tree : dtree) : list (list string * string) :=
  match tree with
  | Dnode dirs files =>
      map (λ f, ([], f)) files ++
      (fix below (dirs : list (string * dtree)) : list (list string * string) :=
         match dirs with
         | [] => []
         | (d, sub) :: rest =>
             map (λ e : list string * string, (d :: e.1, e.2)) (tree_files sub)
             ++ below rest
         end) dirs
  end.

(** The path the walk gives an entry. *)
Definition walk_path (root : string) (e : list string * string) : string :=
  OsPath.join (foldl OsPath.join root e.1) e.2.

(** The entries the sweep hands to the processor: no directory on the way
    is called [processed] or [error], and the extension is allowed. *)
Definition swept (is_allowed : string → bool) (e : list string * string)
  : bool :=
  forallb keep_dir e.1 && is_allowed e.2.

Definition sweep_targets (is_allowed : string → bool) (tree : dtree)
  : list (list string * string) :=
  List.filter (swept is_allowed) (tree_files tree).

(** Processing a list of paths one after the other, as the body of the
    sweep does. *)
Fixpoint process_all (process : string → M unit) (paths : list string)
  : M unit :=
  match paths with
  | [] => mret tt
  | file_path :: rest =>
      logger INFO ("Processing existing file: " +:+ file_path);;
      process file_path;;
      process_all process rest
  end.

(** The folder [_move_file] moves a file to. *)
Definition destination_folder (app : App) (dest_type username : string)
  : string :=
  OsPath.join3 (_get_sink_folder app) dest_type username.

(** Where [_move_file] asks [shutil.move] to put the file: under its own
    name, or under the stamped name when that name is taken in [f], the
    file system after the destination folder was made. *)
Definition move_target (app : App) (file_path dest_type username : string)
    (now : datetime) (f : Fs.t) : string :=
  let dest_folder := destination_folder app dest_type username in
  let filename := PurePath.name file_path in
  if Fs.path_exists (OsPath.join dest_folder filename) f
  then OsPath.join dest_folder (stamped_filename filename now)
  else OsPath.join dest_folder filename.

(** The path of the companion file of [_move_to_error]. *)
Definition error_file_path (app : App) (file_path : string) : string :=
  OsPath.join
    (destination_folder app ERROR_FOLDER_NAME (error_username file_path))
    (PurePath.name file_path +:+ ".error").

(** A character that is no decimal digit. *)
Definition not_digit (c : ascii) : Prop := ∀ d, pretty_N_char d ≠ c.

(** Every non-empty prefix of the resolved path is a directory. *)
Definition dirs_made (p : string) (f : Fs.t) : Prop :=
  ∀ pre, pre ≠ [] → pre `prefix_of` Fs.resolve p → f !! pre = Some Fs.Dir.

(** Processing a list of paths and counting them. *)
Definition sweep_result (process : string → M unit) (paths : list string)
    (count : Z) : M Z :=
  process_all process paths;;
  mret (count + Z.of_nat (length paths))%Z.

(** The sport id the parser takes from the components after [sink]. *)
Definition sport_id_of (remaining : list string) : Z :=
  match remaining with
  | [_; middle; _] => default DEFAULT_SPORT_ID (PyStr.int middle)
  | _ => DEFAULT_SPORT_ID
  end.

(** The user table entry of a name. *)
Definition find_user (username : string) (w : World) : option User.t :=
  head (filter (λ u, User.username u = username) (users w)).

(** The sport table entry of an id. *)
Definition find_sport (sport_id : Z) (w : World) : option Sport.t :=
  head (filter (λ s, Sport.id s = sport_id) (sports w)).

(** ** Example worlds *)

Definition example_app : App := {|
  UPLOAD_FOLDER := "/uploads";
  WORKOUT_ALLOWED_EXTENSIONS := ["fit"; "gpx"; "kml"; "kmz"; "tcx"];
  WorkoutsFromFileCreationService := λ _ _ _ _,
    mret ([{| short_id := "w1"; sport_label := "Cycling (Sport)" |}], "{}");
  db_session_rollback := mret tt
|}.

Definition example_now : datetime := {|
  year := 2026; month := 1; day := 2;
  hour := 3; minute := 4; second := 5; microsecond := 6
|}.

(** A world whose file system holds the sink folder and [entries], whose
    clock stands still, and whose log is empty. *)
Definition example_world (entries : list (list string * Fs.node))
    (us : list User.t) (sp : list Sport.t) : World := {|
  fs := list_to_map
          ([(["uploads"], Fs.Dir); (["uploads"; "sink"], Fs.Dir)] ++ entries);
  users := us;
  sports := sp;
  log := [];
  clock := λ _, example_now;
  ticks := 0
|}.


Definition bob : User.t := {| User.username := "bob"; User.suspended_at := None |}.
Definition alice : User.t :=
  {| User.username := "alice"; User.suspended_at := None |}.
Definition cycling : Sport.t := {| Sport.id := 1; Sport.label := "Cycling (Sport)" |}.

(** An application whose import creates nothing. *)
Definition example_app_no_workout : App := {|
  UPLOAD_FOLDER := "/uploads";
  WORKOUT_ALLOWED_EXTENSIONS := ["fit"; "gpx"; "kml"; "kmz"; "tcx"];
  WorkoutsFromFileCreationService := λ _ _ _ _,
    mret ([], "{'ride.fit': 'no tracks'}");
  db_session_rollback := logger DEBUG "ROLLBACK"
|}.

(** An application whose import raises. *)
Definition example_app_raising : App := {|
  UPLOAD_FOLDER := "/uploads";
  WORKOUT_ALLOWED_EXTENSIONS := ["fit"; "gpx"; "kml"; "kmz"; "tcx"];
  WorkoutsFromFileCreationService := λ _ _ _ _,
    raise (RuntimeError "invalid file");
  db_session_rollback := logger DEBUG "ROLLBACK"
|}.

(* ===================================================================== *)
(** * Part II: properties *)
(* ===================================================================== *)

(** ** Results of calls *)

(** An operation that succeeds gives the file system it leaves. *)
Lemma succeeds_fs_after op f :
  succeeds (op f) = true → op f = inr (fs_after op f).
Proof. unfold succeeds, fs_after. by destruct (op f). Qed.

(** A call that returns, or raises, does so in the world it leaves. *)
Lemma returns_world_of (m : M unit) w :
  raised (m w) = false → m w = Ret tt (world_of (m w)).
Proof. by destruct (m w) as [[] ?|]. Qed.

Lemma raises_world_of {A} (m : M A) w e :
  exception_of (m w) = Some e → m w = Raise e (world_of (m w)).
Proof. destruct (m w); [done|]. by intros [= ->]. Qed.

(** ** Strings and paths *)

Lemma app_cons c (a b : string) : String c a +:+ b = String c (a +:+ b).
Proof. reflexivity. Qed.

Lemma app_empty_l (b : string) : "" +:+ b = b.
Proof. reflexivity. Qed.

Lemma app_empty_r (a : string) : a +:+ "" = a.
Proof. induction a as [|c a IH]; [done|]. by rewrite app_cons, IH. Qed.

Lemma app_assoc_s (a b c : string) : (a +:+ b) +:+ c = a +:+ (b +:+ c).
Proof. induction a as [|x a IH]; [done|]. by rewrite !app_cons, IH. Qed.

Lemma length_app_s (a b : string) :
  String.length (a +:+ b) = String.length a + String.length b.
Proof. induction a as [|x a IH]; [done|]. rewrite app_cons. simpl. lia. Qed.

Lemma has_char_app c (a b : string) :
  has_char c (a +:+ b) = has_char c a || has_char c b.
Proof.
  induction a as [|x a IH]; [done|].
  rewrite app_cons. simpl. rewrite IH. by rewrite orb_assoc.
Qed.

Lemma split_nonempty sep s : PyStr.split sep s ≠ [].
Proof.
  induction s as [|c s IH]; simpl; [done|].
  case_decide; [done|]. by destruct (PyStr.split sep s).
Qed.

(** A text without the separator is a single piece. *)
Lemma split_no_sep sep s : has_char sep s = false → PyStr.split sep s = [s].
Proof.
  induction s as [|c s IH]; simpl; [done|].
  intros [Hc Hs]%orb_false_elim. apply bool_decide_eq_false in Hc.
  case_decide; [done|]. by rewrite IH.
Qed.

(** No piece holds the separator. *)
Lemma split_pieces sep s x : x ∈ PyStr.split sep s → has_char sep x = false.
Proof.
  revert x. induction s as [|c s IH]; simpl; intros x.
  - by intros ->%list_elem_of_singleton.
  - case_decide as Hc.
    + intros [->|?]%elem_of_cons; [done|]. by apply IH.
    + pose proof (split_nonempty sep s) as Hne.
      destruct (PyStr.split sep s) as [|y r]; [done|].
      intros [->|?]%elem_of_cons.
      * simpl. rewrite bool_decide_eq_false_2 by done. apply IH. by left.
      * apply IH. by right.
Qed.

(** Splitting distributes over a separator. *)
Lemma split_app_sep sep a b :
  PyStr.split sep (a +:+ String sep b) = PyStr.split sep a ++ PyStr.split sep b.
Proof.
  induction a as [|c a IH].
  - change ("" +:+ String sep b) with (String sep b). simpl.
    by rewrite decide_True.
  - rewrite app_cons. simpl. rewrite IH. case_decide; [done|].
    pose proof (split_nonempty sep a) as Hne.
    by destruct (PyStr.split sep a).
Qed.

Lemma endswith_app sep a :
  PyStr.endswith sep a = true → ∃ a', a = a' +:+ String sep "".
Proof.
  induction a as [|c a IH]; [done|].
  destruct a as [|d a].
  - simpl. intros ->%bool_decide_eq_true. by exists "".
  - intros H. destruct IH as [a' Ha']; [done|]. exists (String c a').
    by rewrite app_cons, <-Ha'.
Qed.

Lemma segments_app_sep a b :
  PurePath.segments (a +:+ String "/" b)
  = PurePath.segments a ++ PurePath.segments b.
Proof.
  unfold PurePath.segments. by rewrite split_app_sep, filter_app.
Qed.

Lemma segments_empty : PurePath.segments "" = [].
Proof. done. Qed.

(** Joining a path with a relative one puts their components one after
    the other. *)
Lemma segments_join a b :
  PyStr.startswith "/" b = false →
  PurePath.segments (OsPath.join a b)
  = PurePath.segments a ++ PurePath.segments b.
Proof.
  intros Hb. unfold OsPath.join. rewrite Hb.
  destruct (bool_decide (a = "")) eqn:Ha; simpl.
  - apply bool_decide_eq_true in Ha as ->. done.
  - destruct (PyStr.endswith "/" a) eqn:He.
    + apply endswith_app in He as [a' ->].
      rewrite app_assoc_s, app_cons, app_empty_l.
      rewrite !segments_app_sep. rewrite segments_empty, app_nil_r. done.
    + apply segments_app_sep.
Qed.

Lemma segments_component x : component x → PurePath.segments x = [x].
Proof.
  intros (Hs & Hne & Hd). unfold PurePath.segments, PurePath.sep.
  rewrite split_no_sep by done. by rewrite filter_cons_True.
Qed.

Lemma component_no_slash_start x : component x → PyStr.startswith "/" x = false.
Proof.
  intros (Hs & Hne & _). destruct x as [|c x]; [done|].
  simpl in *. apply orb_false_elim in Hs as [Hs _]. done.
Qed.

Lemma segments_join_component a x :
  component x →
  PurePath.segments (OsPath.join a x) = PurePath.segments a ++ [x].
Proof.
  intros Hx. rewrite segments_join by (by apply component_no_slash_start).
  rewrite (segments_component x Hx). done.
Qed.

Lemma segments_are_components p x : x ∈ PurePath.segments p → component x.
Proof.
  unfold PurePath.segments. intros [[??] Hin]%list_elem_of_filter.
  split; [|done]. by eapply split_pieces.
Qed.

Lemma last_elem_of {A} (l : list A) d : l ≠ [] → List.last l d ∈ l.
Proof.
  induction l as [|x l IH]; [done|]. intros _.
  destruct l as [|y l]; [by left|].
  right. by apply IH.
Qed.

(** The name of a path with components is its last component. *)
Lemma name_component p : PurePath.segments p ≠ [] → component (PurePath.name p).
Proof.
  intros H. apply (segments_are_components p). by apply last_elem_of.
Qed.

Lemma name_empty p : PurePath.segments p = [] → PurePath.name p = "".
Proof. unfold PurePath.name. by intros ->. Qed.

Lemma segments_snoc_name p :
  PurePath.segments p ≠ [] →
  PurePath.segments p = removelast (PurePath.segments p) ++ [PurePath.name p].
Proof. intros H. by apply app_removelast_last. Qed.

Lemma rsplit1_app c s pre post :
  PyStr.rsplit1 c s = Some (pre, post) → s = pre +:+ String c post.
Proof.
  revert pre post. induction s as [|a s IH]; intros pre post; simpl; [done|].
  destruct (PyStr.rsplit1 c s) as [[pre' post']|].
  - intros [= <- <-]. rewrite app_cons. f_equal. by apply IH.
  - case_decide; [|done]. intros [= <- <-]. by subst.
Qed.

(** [splitext] cuts the name in two, and the extension is empty or starts
    with a dot. *)
Lemma splitext_app x n e :
  OsPath.splitext x = (n, e) →
  x = n +:+ e ∧ (e = "" ∨ ∃ post, e = String "." post).
Proof.
  unfold OsPath.splitext.
  destruct (PyStr.rsplit1 "." x) as [[pre post]|] eqn:Hr.
  - destruct (PyStr.all_char "." pre).
    + intros [= <- <-]. rewrite app_empty_r. auto.
    + intros [= <- <-]. split; [by apply rsplit1_app|eauto].
  - intros [= <- <-]. rewrite app_empty_r. auto.
Qed.

Lemma not_digit_slash : not_digit "/".
Proof. intros d. unfold pretty_N_char. by repeat case_match. Qed.


Lemma pretty_N_go_has_char c x s :
  not_digit c → has_char c s = false → has_char c (pretty_N_go x s) = false.
Proof.
  intros Hc. revert s. induction (N.lt_wf_0 x) as [x _ IH]; intros s Hs.
  assert (x = 0 ∨ 0 < x)%N as [->|?] by lia.
  - by rewrite pretty_N_go_0.
  - rewrite pretty_N_go_step by done. apply IH.
    { by apply N.div_lt. }
    simpl. rewrite Hs. rewrite bool_decide_eq_false_2; [done|apply Hc].
Qed.

Lemma pretty_nat_has_char c (n : nat) :
  not_digit c → has_char c (pretty n) = false.
Proof.
  intros Hc. unfold pretty, pretty_nat, pretty, pretty_N.
  case_decide.
  - simpl. rewrite bool_decide_eq_false_2; [done|]. apply (Hc 0%N).
  - by apply pretty_N_go_has_char.
Qed.

Lemma zeros_has_char c k :
  not_digit c → has_char c (String.concat "" (replicate k "0")) = false.
Proof.
  intros Hc. induction k as [|k IH]; [done|].
  simpl. destruct (replicate k "0") eqn:Hr.
  - simpl. rewrite bool_decide_eq_false_2; [done|]. apply (Hc 0%N).
  - change ("0" +:+ "" +:+ ?x) with (String "0" x).
    simpl. rewrite bool_decide_eq_false_2 by apply (Hc 0%N). apply IH.
Qed.

Lemma zero_pad_has_char c w n :
  not_digit c → has_char c (zero_pad w n) = false.
Proof.
  intros Hc. unfold zero_pad.
  by rewrite has_char_app, zeros_has_char, pretty_nat_has_char.
Qed.

Lemma strftime_stamp_no_slash d : has_char "/" (strftime_stamp d) = false.
Proof.
  unfold strftime_stamp.
  by rewrite !has_char_app, !zero_pad_has_char by apply not_digit_slash.
Qed.


(** The stamped name is a path component of its own: it is neither the
    name it comes from nor the name of the companion file. *)
Lemma stamped_filename_component x now :
  has_char "/" x = false → component (stamped_filename x now).
Proof.
  intros Hx. unfold stamped_filename.
  destruct (OsPath.splitext x) as [n e] eqn:Hs.
  apply splitext_app in Hs as [-> _].
  rewrite has_char_app in Hx. apply orb_false_elim in Hx as [Hn He].
  split; [|split].
  - by rewrite !has_char_app, Hn, He, strftime_stamp_no_slash.
  - intros H%(f_equal String.length). rewrite !length_app_s in H. simpl in H. lia.
  - intros H%(f_equal (has_char "_")). rewrite !has_char_app in H.
    simpl in H. by rewrite orb_true_r in H.
Qed.


Lemma stamped_filename_not_companion x now :
  stamped_filename x now ≠ x +:+ ".error".
Proof.
  unfold stamped_filename.
  destruct (OsPath.splitext x) as [n e] eqn:Hs.
  apply splitext_app in Hs as [-> He].
  rewrite app_assoc_s. intros H%(inj _).
  destruct He as [->|[post ->]]; [done|].
  by rewrite app_cons in H.
Qed.

Lemma companion_component x :
  has_char "/" x = false → component (x +:+ ".error").
Proof.
  intros Hx. split; [|split].
  - by rewrite has_char_app, Hx.
  - intros H%(f_equal String.length). rewrite length_app_s in H. simpl in H. lia.
  - intros H%(f_equal String.length). rewrite length_app_s in H. simpl in H. lia.
Qed.

Lemma companion_fresh x : x +:+ ".error" ≠ x.
Proof.
  intros H%(f_equal String.length). rewrite length_app_s in H. simpl in H. lia.
Qed.

(** The name of any path has no separator. *)
Lemma name_no_slash p : has_char "/" (PurePath.name p) = false.
Proof.
  destruct (decide (PurePath.segments p = [])) as [H|H].
  - by rewrite name_empty.
  - by apply name_component.
Qed.

(** ** The file system *)

Lemma lookup_file_key f k c :
  Fs.lookup f k = Some (Fs.File c) → k ≠ [] ∧ f !! k = Some (Fs.File c).
Proof. by destruct k. Qed.

Lemma lookup_cons f x k : Fs.lookup f (x :: k) = f !! (x :: k).
Proof. done. Qed.

Lemma lookup_snoc f k x : Fs.lookup f (k ++ [x]) = f !! (k ++ [x]).
Proof. by destruct k. Qed.

Lemma parent_snoc k x : Fs.parent (k ++ [x]) = k.
Proof. unfold Fs.parent. by rewrite removelast_last. Qed.

(** What [makedirs] changes: it adds directories, at prefixes of the path,
    where there was nothing; afterwards every prefix is a directory. *)
Lemma makedirs_go_spec p todo : ∀ seen f f',
  Fs.makedirs_go p seen todo f = inr f' →
  (∀ k, f' !! k = f !! k
        ∨ (f !! k = None ∧ f' !! k = Some Fs.Dir ∧ k `prefix_of` seen ++ todo))
  ∧ (∀ pre, pre ≠ [] → pre `prefix_of` todo → f' !! (seen ++ pre) = Some Fs.Dir).
Proof.
  induction todo as [|c rest IH]; intros seen f f'; simpl.
  - intros [= ->]. split; [by left|].
    intros pre Hne Hpre. apply prefix_nil_inv in Hpre. done.
  - assert (Hq : ∀ (A : Type) (a b : list A) x, (a ++ [x]) ++ b = a ++ x :: b).
    { intros. by rewrite <-app_assoc. }
    destruct (f !! (seen ++ [c])) as [[?|]|] eqn:Hl; [done|..]; intros H;
      apply IH in H as [Ha Hb]; rewrite Hq in Ha.
    + split; [done|]. intros pre Hne [tl Htl].
      destruct pre as [|x pre]; [done|]. simpl in Htl. injection Htl as <- ->.
      destruct pre as [|y pre].
      * destruct (Ha (seen ++ [c])) as [->|(?&?&?)]; [done|congruence].
      * rewrite <-Hq. apply Hb; [done|]. by eexists.
    + assert (Hc : f' !! (seen ++ [c]) = Some Fs.Dir).
      { destruct (Ha (seen ++ [c])) as [->|(?&?&?)]; [|done].
        by rewrite lookup_insert_eq. }
      split.
      * intros k. destruct (decide (k = seen ++ [c])) as [->|Hk].
        { right. split_and!; [done..|].
          exists rest. by rewrite Hq. }
        destruct (Ha k) as [->|(Hn&?&?)].
        { left. by rewrite lookup_insert_ne. }
        right. by rewrite lookup_insert_ne in Hn.
      * intros pre Hne [tl Htl].
        destruct pre as [|x pre]; [done|]. simpl in Htl. injection Htl as <- ->.
        destruct pre as [|y pre]; [done|].
        rewrite <-Hq. apply Hb; [done|]. by eexists.
Qed.

Lemma makedirs_go_done p todo : ∀ seen f,
  (∀ pre, pre ≠ [] → pre `prefix_of` todo → f !! (seen ++ pre) = Some Fs.Dir) →
  Fs.makedirs_go p seen todo f = inr f.
Proof.
  induction todo as [|c rest IH]; intros seen f H; simpl; [done|].
  rewrite (H [c]); [|done|by exists rest].
  apply IH. intros pre Hne [tl ->].
  rewrite <-app_assoc. apply H; [done|]. by exists tl.
Qed.

Lemma makedirs_changes p f f' k :
  Fs.makedirs p f = inr f' →
  f' !! k = f !! k
  ∨ (f !! k = None ∧ f' !! k = Some Fs.Dir ∧ k `prefix_of` Fs.resolve p).
Proof. intros H. by apply makedirs_go_spec in H as [H _]. Qed.

Lemma makedirs_made p f f' : Fs.makedirs p f = inr f' → dirs_made p f'.
Proof.
  intros H pre ??. apply makedirs_go_spec in H as [_ H].
  change (f' !! pre) with (f' !! ([] ++ pre)). by apply H.
Qed.

Lemma makedirs_again p f : dirs_made p f → Fs.makedirs p f = inr f.
Proof. intros H. by apply makedirs_go_done. Qed.

Lemma dirs_made_is_dir p f : dirs_made p f → Fs.is_dir f (Fs.resolve p) = true.
Proof.
  intros H. unfold Fs.is_dir, Fs.lookup.
  pose proof (H (Fs.resolve p)) as H'.
  destruct (Fs.resolve p); [done|]. by rewrite H'.
Qed.

Lemma makedirs_keeps p f f' k v :
  Fs.makedirs p f = inr f' → f !! k = Some v → f' !! k = Some v.
Proof.
  intros H Hk. destruct (makedirs_changes p f f' k H) as [->|(?&?&?)]; congruence.
Qed.

Lemma makedirs_keeps_lookup p f f' k v :
  Fs.makedirs p f = inr f' → Fs.lookup f k = Some v → Fs.lookup f' k = Some v.
Proof. destruct k; [done|]. apply makedirs_keeps. Qed.


Lemma snoc_not_prefix {A} (k : list A) x : ¬ (k ++ [x]) `prefix_of` k.
Proof.
  intros H%prefix_length. rewrite length_app in H. simpl in H. lia.
Qed.

Lemma basename_no_slash p : has_char "/" (Fs.basename p) = false.
Proof.
  unfold Fs.basename. eapply split_pieces. apply last_elem_of, split_nonempty.
Qed.

Lemma no_slash_startswith x : has_char "/" x = false → PyStr.startswith "/" x = false.
Proof. destruct x; [done|]. simpl. by intros [? _]%orb_false_elim. Qed.

(** Where [shutil.move] puts the file: at the destination, or below it. *)
Lemma move_target_extends src dst :
  Fs.resolve dst `prefix_of` Fs.resolve (OsPath.join dst (Fs.basename src)).
Proof.
  unfold Fs.resolve. rewrite segments_join.
  - by apply prefix_app_r.
  - apply no_slash_startswith, basename_no_slash.
Qed.

Lemma rename_tree_other s real f k :
  ¬ s `prefix_of` k → ¬ real `prefix_of` k →
  Fs.rename_tree s real f !! k = f !! k.
Proof.
  intros Hs Hreal. unfold Fs.rename_tree. rewrite lookup_union_r.
  - destruct (f !! k) as [v|] eqn:Hk.
    + by apply map_lookup_filter_Some_2.
    + apply map_lookup_filter_None_2. by left.
  - apply not_elem_of_list_to_map_1. rewrite <-list_fmap_compose.
    intros [kv [-> _]]%list_elem_of_fmap. apply Hreal. simpl.
    by apply prefix_app_r.
Qed.

(** A regular file moved to a name that is no directory, in a directory
    that exists: the file is there afterwards and no longer at its
    source. *)
Lemma move_file_to src dst f c :
  Fs.lookup f (Fs.resolve src) = Some (Fs.File c) →
  Fs.is_dir f (Fs.resolve dst) = false →
  Fs.is_dir f (Fs.parent (Fs.resolve dst)) = true →
  Fs.move src dst f
  = inr (<[Fs.resolve dst := Fs.File c]> (delete (Fs.resolve src) f)).
Proof.
  intros Hs Hd Hp. unfold Fs.move. rewrite Hd. simpl. by rewrite Hs, Hp.
Qed.

(** A move leaves the directories above its destination in place. *)
Lemma move_keeps_dirs src dst f f' k :
  Fs.move src dst f = inr f' →
  k `prefix_of` Fs.resolve dst → length k < length (Fs.resolve dst) →
  f !! k = Some Fs.Dir → f' !! k = Some Fs.Dir.
Proof.
  intros Hm Hk Hlen Hdir. unfold Fs.move in Hm.
  set (s := Fs.resolve src) in *. set (d := Fs.resolve dst) in *.
  set (real := if Fs.is_dir f d
               then Fs.resolve (OsPath.join dst (Fs.basename src)) else d) in *.
  assert (Hreal : d `prefix_of` real).
  { unfold real. destruct (Fs.is_dir f d); [apply move_target_extends|done]. }
  assert (Hkr : ¬ real `prefix_of` k).
  { intros H%prefix_length. apply prefix_length in Hreal. lia. }
  destruct (Fs.is_dir f d && Fs.is_present f real); [done|].
  destruct (Fs.lookup f s) as [[c|]|] eqn:Hs; [..|done].
  - destruct (Fs.is_dir f (Fs.parent real)); [|done]. injection Hm as <-.
    apply lookup_file_key in Hs as [_ Hs].
    rewrite lookup_insert_ne, lookup_delete_ne; [done|congruence|].
    intros <-. by apply Hkr.
  - case_bool_decide as Hsr; [done|].
    assert (Hsk : ¬ s `prefix_of` k).
    { intros H. apply Hsr. by do 2 (etrans; [done|]). }
    destruct (Fs.is_present f real); [done|].
    destruct (Fs.is_dir f (Fs.parent real)).
    + injection Hm as <-. by rewrite rename_tree_other.
    + destruct (Fs.makedirs dst f) as [e|f0] eqn:Hmk; [done|].
      injection Hm as <-. rewrite rename_tree_other by done.
      by apply (makedirs_keeps _ _ _ _ _ Hmk).
Qed.

(** ** The router *)

Ltac munfold :=
  unfold mbind, M_bind, bind, mret, M_ret, ret, raise, try_except, attempt,
    os_makedirs, shutil_move, os_path_exists, write_text, read_bytes,
    fs_update, fs_query, datetime_now, logger,
    User_query_first, Sport_query_first in *.

(** [_move_file] raises exactly what making the destination folder
    raises. *)
Lemma move_file_raises app src dt u w e :
  Fs.makedirs (destination_folder app dt u) (fs w) = inl e →
  _move_file app src dt u w = Raise e w.
Proof.
  intros H. unfold _move_file, destination_folder in *. munfold. by rewrite H.
Qed.

(** Once the destination folder is made, [_move_file] returns: the move
    has been done, or its failure has been logged and the file system is
    as it was after the folder was made. *)
Lemma move_file_spec app src dt u w f1 :
  Fs.makedirs (destination_folder app dt u) (fs w) = inr f1 →
  let taken :=
    Fs.path_exists
      (OsPath.join (destination_folder app dt u) (PurePath.name src)) f1 in
  let target := move_target app src dt u (clock w (ticks w)) f1 in
  ∃ w', _move_file app src dt u w = Ret tt w'
    ∧ users w' = users w ∧ sports w' = sports w ∧ clock w' = clock w
    ∧ ticks w' = (if taken then S (ticks w) else ticks w)
    ∧ match Fs.move src target f1 with
      | inr f2 =>
          fs w' = f2
          ∧ log w' = log w ++ [(DEBUG, "Moved " +:+ src +:+ " to " +:+ target)]
      | inl e =>
          fs w' = f1
          ∧ log w' = log w ++ [(ERROR, "Failed to move file " +:+ src +:+ ": "
                                       +:+ str_exn e)]
      end.
Proof.
  intros H taken target. subst taken target.
  unfold _move_file, move_target, destination_folder in *. munfold.
  rewrite H. simpl.
  destruct (Fs.path_exists _ f1); simpl.
  - destruct (Fs.move _ _ f1); eexists; by split_and!.
  - destruct (Fs.move _ _ f1); eexists; by split_and!.
Qed.

Lemma path_exists_folder p f :
  dirs_made p f → Fs.is_present f (Fs.resolve p) = true.
Proof.
  intros H. apply dirs_made_is_dir in H. unfold Fs.is_dir, Fs.is_present in *.
  by destruct (Fs.lookup f (Fs.resolve p)) as [[]|].
Qed.

Lemma join_empty_name d : Fs.resolve (OsPath.join d "") = Fs.resolve d.
Proof.
  unfold Fs.resolve. rewrite segments_join by done.
  by rewrite segments_empty, app_nil_r.
Qed.

Lemma resolve_join_component d x :
  component x → Fs.resolve (OsPath.join d x) = Fs.resolve d ++ [x].
Proof. apply segments_join_component. Qed.

(** The target of the move is a name of its own in the destination
    folder: the name of the file, or the stamped name. *)
Lemma move_target_resolve app src dt u now f :
  dirs_made (destination_folder app dt u) f →
  ∃ x, component x
    ∧ Fs.resolve (move_target app src dt u now f)
      = Fs.resolve (destination_folder app dt u) ++ [x]
    ∧ ((x = PurePath.name src
        ∧ Fs.path_exists (OsPath.join (destination_folder app dt u)
                            (PurePath.name src)) f = false)
       ∨ (x = stamped_filename (PurePath.name src) now
          ∧ Fs.path_exists (OsPath.join (destination_folder app dt u)
                              (PurePath.name src)) f = true)).
Proof.
  intros Hd. unfold move_target.
  destruct (Fs.path_exists _ f) eqn:Ht.
  - exists (stamped_filename (PurePath.name src) now).
    assert (component (stamped_filename (PurePath.name src) now)) as Hc
      by apply stamped_filename_component, name_no_slash.
    split_and!; [done|by apply resolve_join_component|by right].
  - exists (PurePath.name src).
    assert (component (PurePath.name src)) as Hc.
    { destruct (decide (PurePath.segments src = [])) as [He|He].
      - exfalso. unfold Fs.path_exists in Ht.
        rewrite (name_empty _ He), join_empty_name in Ht.
        by rewrite path_exists_folder in Ht.
      - by apply name_component. }
    split_and!; [done|by apply resolve_join_component|by left].
Qed.

(** [_move_file] leaves the destination folder in place. *)
Lemma move_file_dirs_made app src dt u w w' :
  _move_file app src dt u w = Ret tt w' →
  dirs_made (destination_folder app dt u) (fs w').
Proof.
  intros H.
  destruct (Fs.makedirs (destination_folder app dt u) (fs w)) as [e|f1] eqn:Hm.
  { by rewrite (move_file_raises _ _ _ _ _ _ Hm) in H. }
  pose proof (makedirs_made _ _ _ Hm) as Hd.
  destruct (move_file_spec app src dt u w f1 Hm) as (w'' & Hr & _ & _ & _ & _ & Hf).
  rewrite Hr in H. injection H as ->.
  destruct (Fs.move _ _ f1) as [e|f2] eqn:Hmv.
  - destruct Hf as [-> _]. done.
  - destruct Hf as [-> _].
    destruct (move_target_resolve app src dt u (clock w (ticks w)) f1 Hd)
      as (x & _ & Hx & _).
    intros pre Hne Hpre. eapply move_keeps_dirs; [done| | |by apply Hd].
    + rewrite Hx. by apply prefix_app_r.
    + rewrite Hx, length_app. apply prefix_length in Hpre. simpl. lia.
Qed.

Lemma is_dir_snoc_false f k x :
  f !! (k ++ [x]) ≠ Some Fs.Dir → Fs.is_dir f (k ++ [x]) = false.
Proof.
  intros H. unfold Fs.is_dir. rewrite lookup_snoc.
  by destruct (f !! (k ++ [x])) as [[]|].
Qed.

(** A regular file whose name is free in the destination folder is moved
    there under its name. *)
Lemma move_file_free app src dt u w f1 c :
  Fs.lookup (fs w) (Fs.resolve src) = Some (Fs.File c) →
  Fs.makedirs (destination_folder app dt u) (fs w) = inr f1 →
  f1 !! (Fs.resolve (destination_folder app dt u) ++ [PurePath.name src]) = None →
  ∃ w', _move_file app src dt u w = Ret tt w'
    ∧ fs w' = <[Fs.resolve (destination_folder app dt u) ++ [PurePath.name src]
                := Fs.File c]> (delete (Fs.resolve src) f1)
    ∧ users w' = users w ∧ sports w' = sports w
    ∧ clock w' = clock w ∧ ticks w' = ticks w
    ∧ log w' = log w ++ [(DEBUG, "Moved " +:+ src +:+ " to "
          +:+ OsPath.join (destination_folder app dt u) (PurePath.name src))].
Proof.
  intros Hs Hm Hfree.
  pose proof (makedirs_made _ _ _ Hm) as Hd.
  assert (component (PurePath.name src)) as Hc.
  { apply name_component. by apply lookup_file_key in Hs as [? _]. }
  pose proof (resolve_join_component (destination_folder app dt u) _ Hc) as Hr.
  destruct (move_file_spec app src dt u w f1 Hm)
    as (w' & Hret & Hu & Hsp & Hcl & Ht & Hf).
  assert (Fs.path_exists
            (OsPath.join (destination_folder app dt u) (PurePath.name src)) f1
          = false) as Hex.
  { unfold Fs.path_exists, Fs.is_present. by rewrite Hr, lookup_snoc, Hfree. }
  unfold move_target in Hf. rewrite Hex in Ht, Hf.
  rewrite (move_file_to src _ f1 c) in Hf.
  - destruct Hf as [Hf Hl]. exists w'. rewrite Hr in Hf. by split_and!.
  - by eapply makedirs_keeps_lookup.
  - rewrite Hr. apply is_dir_snoc_false. by rewrite Hfree.
  - rewrite Hr, parent_snoc. by apply dirs_made_is_dir.
Qed.


(** Writing the companion file: it fails only when a directory has its
    name. *)
Lemma write_error_file app src content f :
  dirs_made (destination_folder app ERROR_FOLDER_NAME (error_username src)) f →
  let k := Fs.resolve (destination_folder app ERROR_FOLDER_NAME
                         (error_username src))
           ++ [PurePath.name src +:+ ".error"] in
  Fs.resolve (error_file_path app src) = k
  ∧ Fs.write (error_file_path app src) content f
    = match f !! k with
      | Some Fs.Dir => inl (IsADirectoryError (error_file_path app src))
      | _ => inr (<[k := Fs.File content]> f)
      end.
Proof.
  intros Hd k.
  assert (Fs.resolve (error_file_path app src) = k) as Hk.
  { apply resolve_join_component, companion_component, name_no_slash. }
  split; [done|]. unfold Fs.write. rewrite Hk. subst k.
  rewrite lookup_snoc, parent_snoc, (dirs_made_is_dir _ _ Hd).
  by destruct (f !! _) as [[]|].
Qed.

(** After its move, [_move_to_error] returns: the companion file has been
    written, or the failure to write it has been logged and nothing else
    has changed. *)
Lemma move_to_error_spec app src msg w w1 :
  _move_file app src ERROR_FOLDER_NAME (error_username src) w = Ret tt w1 →
  let now := clock w1 (ticks w1) in
  ∃ w2, _move_to_error app src msg w = Ret tt w2
    ∧ users w2 = users w1 ∧ sports w2 = sports w1 ∧ clock w2 = clock w1
    ∧ ticks w2 = S (ticks w1)
    ∧ match Fs.write (error_file_path app src) (error_content now msg) (fs w1) with
      | inr f2 => fs w2 = f2 ∧ log w2 = log w1
      | inl e =>
          fs w2 = fs w1
          ∧ log w2 = log w1 ++ [(WARNING, "Failed to write error file: "
                                          +:+ str_exn e)]
      end.
Proof.
  intros Hmv now. subst now.
  pose proof (move_file_dirs_made _ _ _ _ _ _ Hmv) as Hd.
  apply makedirs_again in Hd.
  unfold _move_to_error, error_file_path, destination_folder in *.
  unfold mbind at 1, M_bind at 1, bind at 1. rewrite Hmv.
  munfold. simpl. rewrite Hd. simpl.
  destruct (Fs.write _ _ (fs w1)); eexists; by split_and!.
Qed.

(** [_move_to_error] raises exactly what its [_move_file] raises. *)
Lemma move_to_error_raises app src msg w e :
  Fs.makedirs (destination_folder app ERROR_FOLDER_NAME (error_username src))
    (fs w) = inl e →
  _move_to_error app src msg w = Raise e w.
Proof.
  intros H. unfold _move_to_error.
  unfold mbind at 1, M_bind at 1, bind at 1.
  by rewrite (move_file_raises _ _ _ _ _ _ H).
Qed.

(** ** The parser *)

Lemma index_found x pre rest :
  x ∉ pre → PyStr.index x (pre ++ x :: rest) = Some (length pre).
Proof.
  induction pre as [|y pre IH]; simpl; intros H.
  - by rewrite decide_True.
  - apply not_elem_of_cons in H as [Hy H].
    rewrite decide_False by done. by rewrite IH.
Qed.

Lemma index_missing x l : x ∉ l → PyStr.index x l = None.
Proof.
  induction l as [|y l IH]; simpl; intros H; [done|].
  apply not_elem_of_cons in H as [Hy H].
  rewrite decide_False by done. by rewrite IH.
Qed.

Lemma index_inv x l i :
  PyStr.index x l = Some i →
  ∃ pre rest, l = pre ++ x :: rest ∧ (x ∉ pre) ∧ i = length pre.
Proof.
  revert i. induction l as [|y l IH]; simpl; intros i; [done|].
  case_decide as Hy.
  - intros [= <-]. subst. exists [], l. split_and!; [done| |done]. apply not_elem_of_nil.
  - destruct (PyStr.index x l) as [j|]; [|done]. intros [= <-].
    destruct (IH j eq_refl) as (pre & rest & -> & Hpre & ->).
    exists (y :: pre), rest. split_and!; [done| |done].
    apply not_elem_of_cons. split; [congruence|done].
Qed.

(** What the parser does on a path with a [sink] component. *)
Lemma parse_with_sink file_path pre remaining w :
  PurePath.parts file_path = pre ++ SINK_FOLDER_NAME :: remaining →
  SINK_FOLDER_NAME ∉ pre →
  _parse_file_path file_path w
  = match remaining with
    | owner :: _ :: _ => Ret (find_user owner w, sport_id_of remaining) w
    | _ => Raise (ValueError ("Invalid path structure. Expected: sink/username/file or "
                              +:+ "sink/username/sport_id/file")) w
    end.
Proof.
  intros Hp Hpre. unfold _parse_file_path. rewrite Hp, index_found by done.
  replace (pre ++ SINK_FOLDER_NAME :: remaining)
    with ((pre ++ [SINK_FOLDER_NAME]) ++ remaining) by (by rewrite <-app_assoc).
  rewrite drop_app_length' by (rewrite length_app; simpl; lia).
  by destruct remaining as [|owner [|middle [|file [|extra rest]]]].
Qed.

(** What the parser does on a path without [sink] component. *)
Lemma parse_without_sink file_path w :
  SINK_FOLDER_NAME ∉ PurePath.parts file_path →
  _parse_file_path file_path w
  = Raise (ValueError ("'" +:+ SINK_FOLDER_NAME +:+ "' not found in path")) w.
Proof.
  intros H. unfold _parse_file_path. by rewrite index_missing.
Qed.

(** The parser returns only on a path with [sink] and two components or
    more after it. *)
Lemma parse_returns_inv file_path w v w' :
  _parse_file_path file_path w = Ret v w' →
  ∃ pre owner rest,
    PurePath.parts file_path = pre ++ SINK_FOLDER_NAME :: owner :: rest
    ∧ (SINK_FOLDER_NAME ∉ pre) ∧ rest ≠ []
    ∧ v = (find_user owner w, sport_id_of (owner :: rest)) ∧ w' = w.
Proof.
  intros H.
  destruct (PyStr.index SINK_FOLDER_NAME (PurePath.parts file_path)) as [i|] eqn:Hi.
  - apply index_inv in Hi as (pre & remaining & Hp & Hpre & _).
    rewrite (parse_with_sink _ _ _ _ Hp Hpre) in H.
    destruct remaining as [|owner [|x rest]]; try done.
    injection H as <- <-. by exists pre, owner, (x :: rest).
  - unfold _parse_file_path in H. by rewrite Hi in H.
Qed.

(** The user name [_move_to_error] takes from the path. *)
Lemma error_username_with_sink file_path pre remaining :
  PurePath.parts file_path = pre ++ SINK_FOLDER_NAME :: remaining →
  SINK_FOLDER_NAME ∉ pre →
  error_username file_path = default "unknown" (head remaining).
Proof.
  intros Hp Hpre. unfold error_username. rewrite Hp, index_found by done.
  rewrite length_app. simpl.
  destruct remaining as [|owner rest]; simpl.
  - by rewrite (proj2 (Nat.ltb_ge _ _)) by lia.
  - rewrite (proj2 (Nat.ltb_lt _ _)) by lia.
    replace (pre ++ SINK_FOLDER_NAME :: owner :: rest)
      with ((pre ++ [SINK_FOLDER_NAME]) ++ owner :: rest)
      by (by rewrite <-app_assoc).
    rewrite List.app_nth2 by (rewrite length_app; simpl; lia).
    rewrite length_app. simpl. by rewrite Nat.sub_diag.
Qed.

Lemma error_username_without_sink file_path :
  SINK_FOLDER_NAME ∉ PurePath.parts file_path →
  error_username file_path = "unknown".
Proof. intros H. unfold error_username. by rewrite index_missing. Qed.

(** The finder of the user table returns a user of the name asked. *)
Lemma find_user_name username w u :
  find_user username w = Some u → User.username u = username.
Proof.
  unfold find_user. intros H%head_Some_elem_of.
  by apply list_elem_of_filter in H as [? _].
Qed.

(** ** C1: what the parser returns *)

(** C1, counterexample. On [/uploads/sink/alice/run.gpx] the component
    after the marker is [alice] and two components follow the marker, but
    with no user of that name in the table the parser returns no owner at
    all, not the segment [alice]. *)
Lemma C1_counterexample :
  let file_path := "/uploads/sink/alice/run.gpx" in
  let r := _parse_file_path file_path (example_world [] [] []) in
  PurePath.parts file_path = ["/"; "uploads"; "sink"; "alice"; "run.gpx"]
  ∧ value_of r = Some (None, DEFAULT_SPORT_ID)
  ∧ ¬ ∃ owner, fst <$> value_of r = Some (Some owner)
               ∧ User.username owner = "alice".
Proof.
  split_and!; [done..|]. intros (owner & H & _). vm_compute in H. done.
Qed.

(** C1, amended. For every file path with the root marker followed by two
    components or more, the parser looks the first remaining component up
    in the user table and returns what it finds: a user of that name, or
    nothing. It returns as sport id the integer value of the middle
    component when exactly three components remain and the middle one
    parses as an integer, and the default sport id in every other case:
    two remaining components, three with a middle one that is no integer,
    more than three. *)
Theorem C1_parse_file_path file_path pre remaining w :
  PurePath.parts file_path = pre ++ SINK_FOLDER_NAME :: remaining →
  SINK_FOLDER_NAME ∉ pre →
  2 ≤ length remaining →
  ∃ owner sport_id,
    remaining !! 0 = Some owner
    ∧ _parse_file_path file_path w = Ret (find_user owner w, sport_id) w
    ∧ (∀ user, find_user owner w = Some user → User.username user = owner)
    ∧ (∀ middle n, length remaining = 3 → remaining !! 1 = Some middle →
         PyStr.int middle = Some n → sport_id = n)
    ∧ (∀ middle, length remaining = 3 → remaining !! 1 = Some middle →
         PyStr.int middle = None → sport_id = DEFAULT_SPORT_ID)
    ∧ (length remaining = 2 → sport_id = DEFAULT_SPORT_ID)
    ∧ (3 < length remaining → sport_id = DEFAULT_SPORT_ID).
Proof.
  intros Hp Hpre Hlen.
  rewrite (parse_with_sink _ _ _ w Hp Hpre).
  destruct remaining as [|owner [|middle rest]]; simpl in Hlen; [lia..|].
  exists owner, (sport_id_of (owner :: middle :: rest)).
  split_and!; [done|done|apply find_user_name|..].
  - intros m n Hl [= <-] Hn.
    destruct rest as [|file [|??]]; simplify_eq/=. by rewrite Hn.
  - intros m Hl [= <-] Hn.
    destruct rest as [|file [|??]]; simplify_eq/=. by rewrite Hn.
  - intros Hl. by destruct rest.
  - intros Hl. destruct rest as [|file [|??]]; simpl in Hl; [lia..|done].
Qed.

(** C1, witness: [/uploads/sink/bob/3/ride.fit]. *)
Lemma C1_parse_file_path_witness :
  ∃ owner sport_id,
    ["bob"; "3"; "ride.fit"] !! 0 = Some owner
    ∧ _parse_file_path "/uploads/sink/bob/3/ride.fit"
        (example_world [] [bob] [cycling])
      = Ret (find_user owner (example_world [] [bob] [cycling]), sport_id)
          (example_world [] [bob] [cycling])
    ∧ sport_id = 3%Z.
Proof.
  destruct (C1_parse_file_path "/uploads/sink/bob/3/ride.fit"
              ["/"; "uploads"] ["bob"; "3"; "ride.fit"]
              (example_world [] [bob] [cycling]))
    as (owner & sport_id & Ho & Hr & _ & Hn & _).
  - reflexivity.
  - apply (bool_decide_unpack _). vm_compute. exact I.
  - simpl. lia.
  - exists owner, sport_id. split_and!; [done|done|].
    by apply (Hn "3").
Defined.

(** ** C9: what the parser depends on *)

(** C9, counterexample. The same path parsed against two user tables
    gives two results: the parser reads the table. *)
Lemma C9_counterexample :
  value_of (_parse_file_path "/uploads/sink/alice/run.gpx"
              (example_world [] [alice] []))
  ≠ value_of (_parse_file_path "/uploads/sink/alice/run.gpx"
                (example_world [] [] [])).
Proof. vm_compute. discriminate. Qed.

(** C9, amended. The parser changes nothing, and whether it raises, what
    it raises and the sport id it returns are determined by the path
    alone. The user it returns is read from the user table: two runs on
    the same path agree when the user tables agree, whatever the file
    system, the sport table, the log and the clock are. *)
Theorem C9_parser_reads_only_users file_path w1 w2 :
  world_of (_parse_file_path file_path w1) = w1
  ∧ parse_outcome (_parse_file_path file_path w1)
    = parse_outcome (_parse_file_path file_path w2)
  ∧ (users w1 = users w2 →
     value_of (_parse_file_path file_path w1)
     = value_of (_parse_file_path file_path w2)).
Proof.
  destruct (PyStr.index SINK_FOLDER_NAME (PurePath.parts file_path))
    as [i|] eqn:Hi.
  - apply index_inv in Hi as (pre & remaining & Hp & Hpre & _).
    rewrite !(parse_with_sink _ _ _ _ Hp Hpre).
    destruct remaining as [|owner [|x rest]]; try done.
    split_and!; [done..|]. intros Hu. simpl. unfold find_user. by rewrite Hu.
  - unfold _parse_file_path. by rewrite Hi.
Qed.

(** C9, witness: two worlds with the same users and different files. *)
Lemma C9_parser_reads_only_users_witness :
  value_of (_parse_file_path "/uploads/sink/bob/3/ride.fit"
              (example_world [] [bob] []))
  = value_of (_parse_file_path "/uploads/sink/bob/3/ride.fit"
                (example_world [(["uploads"; "x"], Fs.File "X")] [bob] [cycling])).
Proof.
  apply (C9_parser_reads_only_users "/uploads/sink/bob/3/ride.fit"
           (example_world [] [bob] [])
           (example_world [(["uploads"; "x"], Fs.File "X")] [bob] [cycling])).
  reflexivity.
Defined.

(** ** Where an errored file ends *)


(** ** C3: a sport that does not exist *)




(** ** C4: an owner that does not exist *)




(** ** C2: a path that does not parse *)

(** When nothing follows the marker, or the marker is missing, the error
    folder is [unknown]. *)
Lemma error_username_unknown file_path :
  (SINK_FOLDER_NAME ∉ PurePath.parts file_path
   ∨ ∃ pre, PurePath.parts file_path = pre ++ [SINK_FOLDER_NAME]
            ∧ SINK_FOLDER_NAME ∉ pre) →
  error_username file_path = "unknown".
Proof.
  intros [H|(pre & Hp & Hpre)].
  - by apply error_username_without_sink.
  - by rewrite (error_username_with_sink _ _ _ Hp Hpre).
Qed.

(** When one component follows the marker, the path does not parse and
    the error folder has the name of that component: the file itself. *)
Lemma error_username_file_in_root file_path pre file w :
  PurePath.parts file_path = pre ++ [SINK_FOLDER_NAME; file] →
  SINK_FOLDER_NAME ∉ pre →
  raised (_parse_file_path file_path w) = true
  ∧ error_username file_path = file.
Proof.
  intros Hp Hpre. rewrite (parse_with_sink _ _ _ _ Hp Hpre).
  by rewrite (error_username_with_sink _ _ _ Hp Hpre).
Qed.

(** C2, the code at the failing input. The file dropped directly in the
    sink folder, [/uploads/sink/ride.fit], does not parse, and
    [_move_to_error] takes the name of the file for the name of its owner:
    the file ends at [error/ride.fit/ride.fit], not below
    [error/unknown]. *)
Theorem C2_file_in_sink_root :
  let file_path := "/uploads/sink/ride.fit" in
  let w := example_world
             [(["uploads"; "sink"; "ride.fit"], Fs.File "DATA")]
             [bob] [cycling] in
  let w' := world_of (_process_file example_app file_path w) in
  raised (_parse_file_path file_path w) = true
  ∧ error_username file_path = "ride.fit"
  ∧ fs w' !! ["uploads"; "sink"; "error"; "ride.fit"; "ride.fit"]
    = Some (Fs.File "DATA")
  ∧ fs w' !! ["uploads"; "sink"; "error"; "unknown"; "ride.fit"] = None
  ∧ fs w' !! ["uploads"; "sink"; "error"; "unknown"] = None.
Proof. by vm_compute. Qed.

(** ** C5: what the router raises *)

(** C5, the code at the failing input. A regular file has the name of the
    error folder of [bob]: making the folder raises, outside every [try]
    of [_move_file], and the exception goes up to the caller of the
    router, of the processor and of the event handler. *)
Theorem C5_router_raises :
  let file_path := "/uploads/sink/bob/ride.fit" in
  let w := example_world
             [(["uploads"; "sink"; "bob"], Fs.Dir);
              (["uploads"; "sink"; "bob"; "ride.fit"], Fs.File "DATA");
              (["uploads"; "sink"; "error"], Fs.Dir);
              (["uploads"; "sink"; "error"; "bob"], Fs.File "note")]
             [bob] [] in
  _move_file example_app file_path ERROR_FOLDER_NAME "bob" w
  = Raise (FileExistsError "/uploads/sink/error/bob") w
  ∧ _move_to_error example_app file_path "Sport ID 1 not found" w
    = Raise (FileExistsError "/uploads/sink/error/bob") w
  ∧ raised (_process_file example_app file_path w) = true
  ∧ raised (on_created example_app
              {| is_directory := false; src_path := file_path |} w) = true.
Proof.
  intros file_path w.
  assert (Fs.makedirs (destination_folder example_app ERROR_FOLDER_NAME "bob")
            (fs w) = inl (FileExistsError "/uploads/sink/error/bob")) as H
    by by vm_compute.
  split_and!.
  - by apply move_file_raises.
  - by apply (move_to_error_raises example_app file_path).
  - by vm_compute.
  - by vm_compute.
Qed.

(** [_move_file] raises if and only if its destination folder cannot be
    made; [_move_to_error] likewise. *)
Lemma router_raises_iff app src dt u w :
  raised (_move_file app src dt u w)
  = match Fs.makedirs (destination_folder app dt u) (fs w) with
    | inl _ => true
    | inr _ => false
    end.
Proof.
  destruct (Fs.makedirs _ (fs w)) as [e|f1] eqn:Hm.
  - by rewrite (move_file_raises _ _ _ _ _ _ Hm).
  - by destruct (move_file_spec app src dt u w f1 Hm) as (w' & -> & _).
Qed.

(** ** C7: the companion file *)



(** The companion file has a name of its own: the move never puts the
    file there. *)
Lemma error_file_not_target app src now f :
  dirs_made (destination_folder app ERROR_FOLDER_NAME (error_username src)) f →
  ¬ Fs.resolve (move_target app src ERROR_FOLDER_NAME (error_username src)
                  now f)
    `prefix_of` Fs.resolve (error_file_path app src).
Proof.
  intros Hd Hpre.
  destruct (move_target_resolve app src ERROR_FOLDER_NAME (error_username src)
              now f Hd) as (x & _ & Hx & Hcase).
  destruct (write_error_file app src "" f Hd) as [Hk _].
  rewrite Hx, Hk in Hpre.
  apply prefix_length_eq in Hpre; [|by rewrite !length_app].
  apply app_inv_head in Hpre. injection Hpre as Hpre.
  destruct Hcase as [[-> _]|[-> _]].
  - symmetry in Hpre. by apply companion_fresh in Hpre.
  - by apply stamped_filename_not_companion in Hpre.
Qed.






(** ** C6: two files of the same name *)

Lemma lookup_nonempty f k : k ≠ [] → Fs.lookup f k = f !! k.
Proof. by destruct k. Qed.







(** ** C8: the sweep *)

Lemma sweep_result_nil process count w :
  sweep_result process [] count w = Ret count w.
Proof. unfold sweep_result. munfold. simpl. by rewrite Z.add_0_r. Qed.

Lemma sweep_result_cons process p ps count w :
  sweep_result process (p :: ps) count w
  = (logger INFO ("Processing existing file: " +:+ p);;
     process p;;
     sweep_result process ps (count + 1)%Z) w.
Proof.
  unfold sweep_result. simpl. munfold. simpl.
  destruct (process p _) as [[] w1|]; [|done].
  destruct (process_all process ps w1); [|done].
  f_equal. lia.
Qed.

Lemma sweep_result_app process l1 l2 count w :
  sweep_result process (l1 ++ l2) count w
  = (count ← sweep_result process l1 count; sweep_result process l2 count) w.
Proof.
  revert count w. induction l1 as [|p l1 IH]; intros count w.
  - simpl. unfold mbind, M_bind, bind. by rewrite sweep_result_nil.
  - simpl. rewrite sweep_result_cons. unfold mbind, M_bind, bind.
    rewrite sweep_result_cons. unfold mbind, M_bind, bind.
    destruct (logger _ _ w) as [[] w1|]; [|done].
    destruct (process p w1) as [[] w2|]; [|done].
    apply IH.
Qed.

Lemma sweep_files_spec process root is_allowed files : ∀ count w,
  sweep_files process root files is_allowed count w
  = sweep_result process
      (map (OsPath.join root) (List.filter is_allowed files)) count w.
Proof.
  induction files as [|f files IH]; intros count w; simpl.
  - by rewrite sweep_result_nil.
  - destruct (is_allowed f); [|apply IH]. simpl.
    rewrite sweep_result_cons. unfold mbind, M_bind, bind.
    destruct (logger _ _ w) as [[] w1|]; [|done].
    destruct (process _ w1) as [[] w2|]; [|done].
    apply IH.
Qed.

Lemma walk_path_cons root d e :
  walk_path root (d :: e.1, e.2) = walk_path (OsPath.join root d) e.
Proof. done. Qed.

Lemma sweep_targets_below is_allowed d (l : list (list string * string)) :
  List.filter (swept is_allowed)
    (map (λ e : list string * string, (d :: e.1, e.2)) l)
  = if keep_dir d
    then map (λ e : list string * string, (d :: e.1, e.2))
           (List.filter (swept is_allowed) l)
    else [].
Proof.
  induction l as [|e l IH]; simpl.
  - by destruct (keep_dir d).
  - rewrite IH. unfold swept. simpl.
    destruct (keep_dir d); simpl; [|done].
    by destruct (forallb keep_dir e.1 && is_allowed e.2).
Qed.

Lemma sweep_targets_files is_allowed (files : list string) :
  List.filter (swept is_allowed) (map (λ f, ([], f)) files)
  = map (λ f, ([], f)) (List.filter is_allowed files).
Proof.
  induction files as [|f files IH]; simpl; [done|].
  unfold swept in *. simpl. rewrite IH. by destruct (is_allowed f).
Qed.

(** The sweep is the processing, one after the other and in the order of
    the walk, of its targets, and it counts them. *)
Lemma sweep_walk_spec process is_allowed : ∀ tree root count w,
  sweep_walk process is_allowed root tree count w
  = sweep_result process
      (map (walk_path root) (sweep_targets is_allowed tree)) count w.
Proof.
  fix IH 1. intros [dirs files] root count w.
  unfold sweep_targets. simpl.
  rewrite List.filter_app, map_app, sweep_result_app, sweep_targets_files.
  rewrite map_map. unfold mbind, M_bind, bind.
  rewrite sweep_files_spec.
  change (map (λ x, walk_path root ([], x))) with (map (OsPath.join root)).
  destruct (sweep_result process _ count w) as [count' w'|]; [|done].
  clear count w. revert count' w'.
  induction dirs as [|[d sub] dirs IHd]; intros count w.
  - simpl. by rewrite sweep_result_nil.
  - simpl. rewrite List.filter_app, map_app, sweep_result_app.
    rewrite sweep_targets_below. unfold mbind, M_bind, bind.
    destruct (keep_dir d).
    + rewrite IH.
      rewrite map_map. unfold sweep_targets.
      erewrite map_ext; [|intros e; apply walk_path_cons].
      destruct (sweep_result process _ count w) as [count' w'|]; [|done].
      apply IHd.
    + cbn [map]. rewrite sweep_result_nil. apply IHd.
Qed.

Lemma keep_dir_spec d :
  keep_dir d = true ↔ d ≠ PROCESSED_FOLDER_NAME ∧ d ≠ ERROR_FOLDER_NAME.
Proof.
  unfold keep_dir, PyStr.mem. rewrite negb_true_iff, bool_decide_eq_false.
  rewrite !not_elem_of_cons. split.
  - by intros (? & ? & _).
  - intros [??]. split_and!; [done..|]. apply not_elem_of_nil.
Qed.

(** The targets of the sweep: the files of the walk with an allowed
    extension and no directory called [processed] or [error] above them,
    at any depth. *)
Lemma sweep_targets_spec is_allowed tree e :
  e ∈ sweep_targets is_allowed tree
  ↔ e ∈ tree_files tree
    ∧ (∀ d, d ∈ e.1 → d ≠ PROCESSED_FOLDER_NAME ∧ d ≠ ERROR_FOLDER_NAME)
    ∧ is_allowed e.2 = true.
Proof.
  unfold sweep_targets, swept.
  rewrite !list_elem_of_In, filter_In, andb_true_iff, forallb_forall.
  setoid_rewrite keep_dir_spec. setoid_rewrite list_elem_of_In. tauto.
Qed.

(** C8, counterexample. [x.fit] lies in [alice/processed], which is not
    the [processed] folder of the watch root, and its extension is
    allowed: the sweep skips it and counts nothing, where the event
    handler processes the same path. *)
Lemma C8_counterexample :
  let tree := Dnode [("alice", Dnode [("processed", Dnode [] ["x.fit"])] [])] [] in
  let w := example_world
             [(["uploads"; "sink"; "alice"], Fs.Dir);
              (["uploads"; "sink"; "alice"; "processed"], Fs.Dir);
              (["uploads"; "sink"; "alice"; "processed"; "x.fit"],
               Fs.File "DATA")]
             [alice] [cycling] in
  let file_path := "/uploads/sink/alice/processed/x.fit" in
  tree_files tree = [(["alice"; "processed"], "x.fit")]
  ∧ walk_path (get_sink_folder_path example_app) (["alice"; "processed"], "x.fit")
    = file_path
  ∧ allowed_extension example_app "x.fit" = true
  ∧ process_existing_files example_app tree w = Ret 0%Z w
  ∧ fs (world_of (on_created example_app
                    {| is_directory := false; src_path := file_path |} w))
    !! ["uploads"; "sink"; "processed"; "alice"; "x.fit"]
    = Some (Fs.File "DATA").
Proof. by vm_compute. Qed.

(** C8, amended. The sweep walks what lies below the watch root and never
    descends into a directory called [processed] or [error], at any
    depth: a file directly under [processed/] is not reprocessed. It hands
    to the processor, one after the other and in the order of the walk,
    exactly the files outside such directories whose extension is allowed,
    and returns their number. *)
Theorem C8_sweep app tree w :
  let targets := sweep_targets (allowed_extension app) tree in
  process_existing_files app tree w
  = (process_all (_process_file app)
       (map (walk_path (get_sink_folder_path app)) targets);;
     mret (Z.of_nat (length targets))) w
  ∧ (∀ e, e ∈ targets
          ↔ e ∈ tree_files tree
            ∧ (∀ d, d ∈ e.1 → d ≠ PROCESSED_FOLDER_NAME
                              ∧ d ≠ ERROR_FOLDER_NAME)
            ∧ allowed_extension app e.2 = true)
  ∧ (∀ sub files, tree = Dnode [(PROCESSED_FOLDER_NAME, sub)] files →
       ∀ e, e ∈ targets → e.1 = []).
Proof.
  intros targets. split_and!.
  - unfold process_existing_files. rewrite sweep_walk_spec.
    unfold sweep_result. by rewrite length_map.
  - intros e. apply sweep_targets_spec.
  - intros sub files -> e. subst targets. unfold sweep_targets. simpl.
    rewrite List.filter_app, app_nil_r, sweep_targets_files, sweep_targets_below.
    replace (keep_dir PROCESSED_FOLDER_NAME) with false by done.
    rewrite app_nil_r. by intros (f & -> & _)%list_elem_of_fmap.
Qed.

(** ** C10: the event handler *)

(** C10. The event handler looks at nothing but the kind of the event and
    the extension of the path: for every creation event of a file with an
    allowed extension it runs the processor, wherever the path lies, the
    [processed] and [error] folders included. The sweep alone leaves
    these out: none of its targets has a directory of either name above
    it. *)
Theorem C10_on_created_excludes_nothing app event w :
  is_directory event = false →
  allowed_extension app (src_path event) = true →
  on_created app event w = _process_file app (src_path event) w
  ∧ ∀ tree e, e ∈ sweep_targets (allowed_extension app) tree →
      (PROCESSED_FOLDER_NAME ∉ e.1) ∧ ERROR_FOLDER_NAME ∉ e.1.
Proof.
  intros Hd Ha. split.
  - unfold on_created. by rewrite Hd, Ha.
  - intros tree e (_ & He & _)%sweep_targets_spec.
    split; intros Hin; by destruct (He _ Hin).
Qed.

(** C10, witness: a file created below the [processed] folder. *)
Lemma C10_on_created_excludes_nothing_witness :
  on_created example_app
    {| is_directory := false;
       src_path := "/uploads/sink/processed/bob/ride.fit" |}
    (example_world [] [bob] [cycling])
  = _process_file example_app "/uploads/sink/processed/bob/ride.fit"
      (example_world [] [bob] [cycling]).
Proof.
  refine (proj1 (C10_on_created_excludes_nothing example_app
    {| is_directory := false;
       src_path := "/uploads/sink/processed/bob/ride.fit" |}
    (example_world [] [bob] [cycling]) _ _)); reflexivity.
Defined.

(* ===================================================================== *)
(** * Part III: further properties of the service *)
(* ===================================================================== *)

(** ** The parser: when it raises *)

(** X1. The parser raises on exactly two kinds of path, each with its own
    message: a path without the marker, and a path with fewer than two
    components after the first marker. *)
Theorem parse_raises file_path w :
  (SINK_FOLDER_NAME ∉ PurePath.parts file_path →
   _parse_file_path file_path w
   = Raise (ValueError "'sink' not found in path") w)
  ∧ (∀ pre remaining,
       PurePath.parts file_path = pre ++ SINK_FOLDER_NAME :: remaining →
       SINK_FOLDER_NAME ∉ pre → length remaining < 2 →
       _parse_file_path file_path w
       = Raise (ValueError
                  "Invalid path structure. Expected: sink/username/file or sink/username/sport_id/file")
           w)
  ∧ (raised (_parse_file_path file_path w) = true →
     SINK_FOLDER_NAME ∉ PurePath.parts file_path
     ∨ ∃ pre remaining,
         PurePath.parts file_path = pre ++ SINK_FOLDER_NAME :: remaining
         ∧ (SINK_FOLDER_NAME ∉ pre) ∧ length remaining < 2).
Proof.
  split_and!.
  - apply parse_without_sink.
  - intros pre remaining Hp Hpre Hlen.
    rewrite (parse_with_sink _ _ _ _ Hp Hpre).
    destruct remaining as [|? [|??]]; simpl in Hlen; [done|done|lia].
  - intros Hr.
    destruct (PyStr.index SINK_FOLDER_NAME (PurePath.parts file_path))
      as [i|] eqn:Hi.
    + right. apply index_inv in Hi as (pre & remaining & Hp & Hpre & _).
      exists pre, remaining. split_and!; [done..|].
      rewrite (parse_with_sink _ _ _ _ Hp Hpre) in Hr.
      destruct remaining as [|? [|??]]; simpl; [lia|lia|done].
    + left. intros Hin. apply list_elem_of_In, In_nth_error in Hin as [n Hn].
      clear Hr. revert Hi n Hn.
      induction (PurePath.parts file_path) as [|y l IH]; simpl; intros Hi n Hn.
      * by destruct n.
      * case_decide; [done|]. destruct n as [|n]; simpl in Hn; [congruence|].
        apply (IH ltac:(by destruct (PyStr.index SINK_FOLDER_NAME l)) n Hn).
Qed.

(** X1, witness: a path without marker, and a file directly in the sink. *)
Lemma parse_raises_witness :
  _parse_file_path "/uploads/ride.fit" (example_world [] [bob] [cycling])
  = Raise (ValueError "'sink' not found in path")
      (example_world [] [bob] [cycling])
  ∧ _parse_file_path "/uploads/sink/ride.fit" (example_world [] [bob] [cycling])
    = Raise (ValueError
               "Invalid path structure. Expected: sink/username/file or sink/username/sport_id/file")
        (example_world [] [bob] [cycling]).
Proof.
  split.
  - apply (proj1 (parse_raises "/uploads/ride.fit"
                    (example_world [] [bob] [cycling]))).
    apply (bool_decide_unpack _). vm_compute. exact I.
  - apply (proj1 (proj2 (parse_raises "/uploads/sink/ride.fit"
                           (example_world [] [bob] [cycling])))
             ["/"; "uploads"] ["ride.fit"]).
    + reflexivity.
    + apply (bool_decide_unpack _). vm_compute. exact I.
    + simpl. lia.
Defined.

(** ** The processor after the look-ups *)

(** A try block whose body returns is its body. *)
Lemma try_except_returns {A} (m : M A) h w :
  raised (m w) = false → try_except m h w = m w.
Proof. unfold try_except. by destruct (m w). Qed.

(** Up to the import: a file whose path parses, whose owner and sport
    exist, whose owner is not suspended and which can be read reaches the
    import service with the owner, the sport id, its name and its
    content. *)
Lemma process_file_imports app file_path pre owner rest user sport content w :
  PurePath.parts file_path = pre ++ SINK_FOLDER_NAME :: owner :: rest →
  SINK_FOLDER_NAME ∉ pre →
  rest ≠ [] →
  find_user owner w = Some user →
  find_sport (sport_id_of (owner :: rest)) w = Some sport →
  User.suspended_at user = None →
  Fs.read file_path (fs w) = inr content →
  _process_file app file_path w
  = try_except
      (out ← WorkoutsFromFileCreationService app user
               (sport_id_of (owner :: rest)) (PurePath.name file_path) content;
       match out.1 with
       | workout :: _ =>
           logger INFO
             ("Successfully imported workout for user "
              +:+ User.username user +:+ ": "
              +:+ short_id workout +:+ " ("
              +:+ sport_label workout +:+ ")");;
           _move_to_processed app file_path (User.username user)
       | [] =>
           logger ERROR ("Failed to create workout: " +:+ out.2);;
           _move_to_error app file_path out.2
       end)
      (λ e,
        db_session_rollback app;;
        logger ERROR ("Error processing workout: " +:+ str_exn e);;
        _move_to_error app file_path (str_exn e))
      (with_log (log w ++ [(INFO, "Processing file: " +:+ file_path)]) w).
Proof.
  intros Hp Hpre Hrest Hu Hs Hsusp Hread.
  unfold _process_file.
  unfold mbind at 1 2, M_bind at 1 2, bind at 1 2, attempt at 1, logger at 1.
  rewrite (parse_with_sink _ _ _ _ Hp Hpre).
  destruct rest as [|x rest]; [done|].
  remember (sport_id_of (owner :: x :: rest)) as sport_id.
  unfold find_user, find_sport in *. simpl. rewrite Hu.
  unfold mbind at 1, M_bind at 1, bind at 1, Sport_query_first at 1.
  simpl. rewrite Hs, Hsusp.
  unfold mbind at 1, M_bind at 1, bind at 1, attempt at 1, read_bytes, fs_query.
  simpl. by rewrite Hread.
Qed.

(** ** The number of a sport folder *)

Lemma digit_value_pretty_char d :
  (d < 10)%N → PyStr.digit_value (pretty_N_char d) = Some (Z.of_N d).
Proof.
  intros H.
  assert (d = 0 ∨ d = 1 ∨ d = 2 ∨ d = 3 ∨ d = 4 ∨ d = 5 ∨ d = 6 ∨ d = 7
          ∨ d = 8 ∨ d = 9)%N as Hd by lia.
  destruct_or!; by subst.
Qed.

(** A text that starts with a digit and has no more digits than the
    limit is read digit by digit. *)
Lemma int_unsigned_cons c s d :
  PyStr.digit_value c = Some d →
  PyStr.count_digits (String c s) ≤ PyStr.int_max_str_digits →
  PyStr.int_unsigned (String c s) = PyStr.int_digits d false s.
Proof.
  intros Hd Hc. unfold PyStr.int_unsigned. rewrite Hd.
  by rewrite (proj2 (Nat.ltb_ge _ _) Hc).
Qed.

Lemma int_unsigned_pretty_go x s :
  (0 < x)%N →
  PyStr.count_digits (pretty_N_go x s) ≤ PyStr.int_max_str_digits →
  PyStr.int_unsigned (pretty_N_go x s) = PyStr.int_digits (Z.of_N x) false s.
Proof.
  revert s. induction (N.lt_wf_0 x) as [x _ IH]; intros s Hx Hc.
  rewrite pretty_N_go_step in Hc |- * by done.
  pose proof (N.mod_lt x 10 ltac:(done)) as Hmod.
  pose proof (N.div_mod' x 10) as Hdiv.
  assert (x `div` 10 = 0 ∨ 0 < x `div` 10)%N as [H0|Hpos] by lia.
  - rewrite H0, pretty_N_go_0 in Hc |- *.
    rewrite (int_unsigned_cons _ _ _ (digit_value_pretty_char _ Hmod) Hc).
    f_equal. lia.
  - rewrite IH; [|by apply N.div_lt|done|done]. simpl.
    rewrite digit_value_pretty_char by done.
    f_equal. lia.
Qed.

Lemma int_unsigned_pretty_N (x : N) :
  PyStr.count_digits (pretty x) ≤ PyStr.int_max_str_digits →
  PyStr.int_unsigned (pretty x) = Some (Z.of_N x).
Proof.
  unfold pretty, pretty_N. case_decide as Hx; [by subst|]. intros Hc.
  rewrite int_unsigned_pretty_go by (lia || done). done.
Qed.

Lemma is_space_not_digit c : PyStr.is_space c = true → not_digit c.
Proof.
  intros H d <-. unfold pretty_N_char in H. by repeat case_match.
Qed.

Lemma not_digit_minus : not_digit "-".
Proof. intros d. unfold pretty_N_char. by repeat case_match. Qed.

Lemma not_digit_plus : not_digit "+".
Proof. intros d. unfold pretty_N_char. by repeat case_match. Qed.

Lemma pretty_N_has_char c (x : N) :
  not_digit c → has_char c (pretty x) = false.
Proof.
  intros Hc. unfold pretty, pretty_N. case_decide.
  - simpl. rewrite bool_decide_eq_false_2; [done|]. apply (Hc 0%N).
  - by apply pretty_N_go_has_char.
Qed.

Lemma lstrip_space_id s :
  (∀ c, PyStr.is_space c = true → has_char c s = false) →
  PyStr.lstrip_space s = s.
Proof.
  intros H. destruct s as [|a s]; [done|]. simpl.
  destruct (PyStr.is_space a) eqn:E; [|done].
  specialize (H a E). simpl in H. by rewrite bool_decide_eq_true_2 in H.
Qed.

Lemma rstrip_space_id s :
  (∀ c, PyStr.is_space c = true → has_char c s = false) →
  PyStr.rstrip_space s = s.
Proof.
  induction s as [|a s IH]; intros H; [done|]. simpl.
  rewrite IH.
  - destruct s; [|done].
    destruct (PyStr.is_space a) eqn:E; [|done].
    specialize (H a E). simpl in H. by rewrite bool_decide_eq_true_2 in H.
  - intros c Hc. specialize (H c Hc). simpl in H.
    by apply orb_false_elim in H as [_ ?].
Qed.

(** [int(str(z))] is [z], for a [z] that [str] prints: one of no more
    digits than the limit. *)
Lemma int_pretty (z : Z) :
  PyStr.count_digits (pretty z) ≤ PyStr.int_max_str_digits →
  PyStr.int (pretty z) = Some z.
Proof.
  assert (Hpos : ∀ p : positive,
            PyStr.count_digits (pretty (Npos p)) ≤ PyStr.int_max_str_digits →
            PyStr.int (pretty (Npos p)) = Some (Zpos p)).
  { intros p Hdig. unfold PyStr.int.
    assert (Hsp : ∀ c, PyStr.is_space c = true →
              has_char c (pretty (Npos p)) = false).
    { intros c Hc. by apply pretty_N_has_char, is_space_not_digit. }
    rewrite lstrip_space_id, rstrip_space_id by done.
    pose proof (pretty_N_has_char "-" (Npos p) not_digit_minus) as Hm.
    pose proof (pretty_N_has_char "+" (Npos p) not_digit_plus) as Hp.
    pose proof (int_unsigned_pretty_N (Npos p) Hdig) as Hi.
    destruct (pretty (Npos p)) as [|a s]; [done|].
    simpl in Hm, Hp.
    apply orb_false_elim in Hm as [Hm%bool_decide_eq_false _].
    apply orb_false_elim in Hp as [Hp%bool_decide_eq_false _].
    destruct a as [[] [] [] [] [] [] [] []]; try done. }
  destruct z as [|p|p]; intros Hdig.
  - done.
  - by apply Hpos.
  - change (pretty (Zneg p)) with ("-" +:+ pretty (Npos p)) in Hdig |- *.
    change (PyStr.count_digits ("-" +:+ pretty (Npos p)))
      with (PyStr.count_digits (pretty (Npos p))) in Hdig.
    unfold PyStr.int.
    assert (Hsp : ∀ c, PyStr.is_space c = true →
              has_char c (pretty (Npos p)) = false).
    { intros c Hc. by apply pretty_N_has_char, is_space_not_digit. }
    change ("-" +:+ pretty (Npos p)) with (String "-" (pretty (Npos p))).
    change (PyStr.lstrip_space (String "-" (pretty (Npos p))))
      with (String "-" (pretty (Npos p))).
    simpl PyStr.rstrip_space. rewrite rstrip_space_id by done.
    pose proof (int_unsigned_pretty_N (Npos p) Hdig) as Hi.
    destruct (pretty (Npos p)) as [|a s]; [done|]. by rewrite Hi.
Qed.

(** X2. A file in a folder that bears a sport id as Python prints it, below
    the folder of its owner, is parsed to that sport id, whatever its
    sign: writing the number and reading it back is the identity. Python
    prints the numbers of no more digits than [sys.int_max_str_digits],
    and raises on the others. *)
Theorem sport_folder_round_trip file_path pre owner filename (z : Z) w :
  PyStr.count_digits (pretty z) ≤ PyStr.int_max_str_digits →
  PurePath.parts file_path
  = pre ++ SINK_FOLDER_NAME :: [owner; pretty z; filename] →
  SINK_FOLDER_NAME ∉ pre →
  _parse_file_path file_path w = Ret (find_user owner w, z) w.
Proof.
  intros Hdigits Hparts Hpre.
  rewrite (parse_with_sink _ _ _ w Hparts Hpre).
  unfold sport_id_of. by rewrite int_pretty.
Qed.

(** X2, witness. *)
Lemma sport_folder_round_trip_witness :
  _parse_file_path "/uploads/sink/bob/-12/ride.fit"
    (example_world [] [bob] [cycling])
  = Ret (Some bob, (-12)%Z) (example_world [] [bob] [cycling]).
Proof.
  refine (sport_folder_round_trip "/uploads/sink/bob/-12/ride.fit"
            ["/"; "uploads"] "bob" "ride.fit" (-12)
            (example_world [] [bob] [cycling]) _ _ _).
  - apply (bool_decide_unpack _). vm_compute. exact I.
  - reflexivity.
  - apply (bool_decide_unpack _). vm_compute. exact I.
Defined.

(** ** The owner of the parser and the owner of the router *)

(** X3. Whenever the parser finds the owner of a file, the user it returns
    bears the name under which the router files the errors of that file:
    the parser and the router read the same owner off a path that
    parses. *)
Theorem router_owner_is_parsed_owner file_path w user sport_id w' :
  _parse_file_path file_path w = Ret (Some user, sport_id) w' →
  error_username file_path = User.username user.
Proof.
  intros H.
  apply parse_returns_inv in H
    as (pre & owner & rest & Hparts & Hpre & _ & [= Hu _] & _).
  rewrite (error_username_with_sink _ _ _ Hparts Hpre). simpl.
  symmetry. by apply (find_user_name _ w).
Qed.

(** X3, witness. *)
Lemma router_owner_is_parsed_owner_witness :
  error_username "/uploads/sink/bob/3/ride.fit" = User.username bob.
Proof.
  refine (router_owner_is_parsed_owner "/uploads/sink/bob/3/ride.fit"
            (example_world [] [bob] [cycling]) bob 3
            (example_world [] [bob] [cycling]) _).
  reflexivity.
Defined.

Lemma move_to_error_returns app src msg w f1 :
  Fs.makedirs (destination_folder app ERROR_FOLDER_NAME (error_username src))
    (fs w) = inr f1 →
  raised (_move_to_error app src msg w) = false.
Proof.
  intros Hm.
  destruct (move_file_spec app src _ _ w f1 Hm) as (w1 & Hmv & _).
  by destruct (move_to_error_spec app src msg w w1 Hmv) as (w2 & -> & _).
Qed.

(** X4. A suspended owner: the file goes to the error folder with the message
    [User <name> is suspended], and nothing of the application but its
    upload folder plays a part: the file is not read and the import
    service is not called. *)
Theorem suspended_owner app file_path pre owner rest user sport since w :
  PurePath.parts file_path = pre ++ SINK_FOLDER_NAME :: owner :: rest →
  SINK_FOLDER_NAME ∉ pre →
  rest ≠ [] →
  find_user owner w = Some user →
  find_sport (sport_id_of (owner :: rest)) w = Some sport →
  User.suspended_at user = Some since →
  _process_file app file_path w
  = (logger INFO ("Processing file: " +:+ file_path);;
     logger ERROR ("User " +:+ owner +:+ " is suspended");;
     _move_to_error app file_path ("User " +:+ owner +:+ " is suspended")) w
  ∧ ∀ app', UPLOAD_FOLDER app' = UPLOAD_FOLDER app →
      _process_file app' file_path w = _process_file app file_path w.
Proof.
  intros Hp Hpre Hrest Hu Hs Hsusp.
  assert (Heq : ∀ a, _process_file a file_path w
    = (logger INFO ("Processing file: " +:+ file_path);;
       logger ERROR ("User " +:+ owner +:+ " is suspended");;
       _move_to_error a file_path ("User " +:+ owner +:+ " is suspended")) w).
  { intros a. unfold _process_file. munfold.
    rewrite (parse_with_sink _ _ _ _ Hp Hpre).
    destruct rest as [|x rest]; [done|].
    remember (sport_id_of (owner :: x :: rest)) as sport_id.
    pose proof (find_user_name _ _ _ Hu) as Hname.
    unfold find_user, find_sport in *. simpl. rewrite Hu. simpl.
    by rewrite Hs, Hsusp, Hname. }
  split; [apply Heq|].
  intros app' Hup. rewrite !Heq. munfold.
  unfold _move_to_error, _move_file, _get_sink_folder. by rewrite Hup.
Qed.

(** X4, witness: [bob] is suspended. *)
Lemma suspended_owner_witness :
  let suspended_bob :=
    {| User.username := "bob"; User.suspended_at := Some example_now |} in
  let w := example_world
             [(["uploads"; "sink"; "bob"], Fs.Dir);
              (["uploads"; "sink"; "bob"; "ride.fit"], Fs.File "DATA")]
             [suspended_bob] [cycling] in
  _process_file example_app "/uploads/sink/bob/ride.fit" w
  = (logger INFO "Processing file: /uploads/sink/bob/ride.fit";;
     logger ERROR "User bob is suspended";;
     _move_to_error example_app "/uploads/sink/bob/ride.fit"
       "User bob is suspended") w.
Proof.
  intros suspended_bob w.
  refine (proj1 (suspended_owner example_app "/uploads/sink/bob/ride.fit"
    ["/"; "uploads"] "bob" ["ride.fit"] suspended_bob cycling example_now w
    _ _ _ _ _ _));
    [reflexivity|apply (bool_decide_unpack _); vm_compute; exact I
    |discriminate|reflexivity|reflexivity|reflexivity].
Defined.



(** X6. An import that creates a workout: the file is moved to the processed
    folder of its owner. A regular file whose name is free there ends
    there, without companion file, and is no longer at its source. *)
Theorem imported_file_is_processed app file_path pre owner rest user sport
    content w workout others out w1 c f1 :
  let w0 := with_log (log w ++ [(INFO, "Processing file: " +:+ file_path)]) w in
  let dest := Fs.resolve (destination_folder app PROCESSED_FOLDER_NAME owner) in
  PurePath.parts file_path = pre ++ SINK_FOLDER_NAME :: owner :: rest →
  SINK_FOLDER_NAME ∉ pre →
  rest ≠ [] →
  find_user owner w = Some user →
  find_sport (sport_id_of (owner :: rest)) w = Some sport →
  User.suspended_at user = None →
  Fs.read file_path (fs w) = inr content →
  WorkoutsFromFileCreationService app user (sport_id_of (owner :: rest))
    (PurePath.name file_path) content w0
  = Ret (workout :: others, out) w1 →
  Fs.lookup (fs w1) (Fs.resolve file_path) = Some (Fs.File c) →
  Fs.makedirs (destination_folder app PROCESSED_FOLDER_NAME owner) (fs w1)
    = inr f1 →
  f1 !! (dest ++ [PurePath.name file_path]) = None →
  ∃ w', _process_file app file_path w = Ret tt w'
    ∧ fs w' = <[dest ++ [PurePath.name file_path] := Fs.File c]>
                (delete (Fs.resolve file_path) f1)
    ∧ log w'
      = log w1
        ++ [(INFO, "Successfully imported workout for user " +:+ owner
                   +:+ ": " +:+ short_id workout +:+ " ("
                   +:+ sport_label workout +:+ ")");
            (DEBUG, "Moved " +:+ file_path +:+ " to "
                    +:+ OsPath.join
                          (destination_folder app PROCESSED_FOLDER_NAME owner)
                          (PurePath.name file_path))].
Proof.
  intros w0 dest Hp Hpre Hrest Hu Hs Hsusp Hread Himp Hc Hm Hfree.
  rewrite (process_file_imports _ _ _ _ _ _ _ _ _ Hp Hpre Hrest Hu Hs Hsusp Hread).
  fold w0. pose proof (find_user_name _ _ _ Hu) as Hname.
  unfold try_except, mbind at 1, M_bind at 1, bind at 1. rewrite Himp. simpl.
  unfold mbind, M_bind, bind, logger, _move_to_processed. rewrite Hname.
  destruct (move_file_free app file_path PROCESSED_FOLDER_NAME owner
              (with_log (log w1 ++ [(INFO,
                 "Successfully imported workout for user " +:+ owner
                 +:+ ": " +:+ short_id workout +:+ " ("
                 +:+ sport_label workout +:+ ")")]) w1) f1 c Hc Hm Hfree)
    as (w' & -> & Hf & _ & _ & _ & _ & Hl).
  exists w'. split_and!; [done|done|]. rewrite Hl. simpl.
  by rewrite <-app_assoc.
Qed.

(** X6, witness: the drop of [/uploads/sink/alice/run.gpx]. *)
Lemma imported_file_is_processed_witness :
  let w := example_world
             [(["uploads"; "sink"; "alice"], Fs.Dir);
              (["uploads"; "sink"; "alice"; "run.gpx"], Fs.File "DATA")]
             [alice] [cycling] in
  ∃ w', _process_file example_app "/uploads/sink/alice/run.gpx" w = Ret tt w'
    ∧ fs w' !! ["uploads"; "sink"; "processed"; "alice"; "run.gpx"]
      = Some (Fs.File "DATA").
Proof.
  intros w.
  edestruct (imported_file_is_processed example_app
               "/uploads/sink/alice/run.gpx" ["/"; "uploads"] "alice"
               ["run.gpx"] alice cycling "DATA" w
               {| short_id := "w1"; sport_label := "Cycling (Sport)" |} []
               "{}"
               (with_log [(INFO, "Processing file: /uploads/sink/alice/run.gpx")] w)
               "DATA"
               (fs_after (Fs.makedirs "/uploads/sink/processed/alice") (fs w)))
    as (w' & Hr & Hf & _).
  - reflexivity.
  - apply (bool_decide_unpack _). vm_compute. exact I.
  - discriminate.
  - reflexivity.
  - reflexivity.
  - reflexivity.
  - reflexivity.
  - reflexivity.
  - reflexivity.
  - apply (succeeds_fs_after (Fs.makedirs _)). vm_compute. reflexivity.
  - vm_compute. reflexivity.
  - exists w'. split; [exact Hr|]. rewrite Hf. vm_compute. reflexivity.
Defined.

(** X7. An import that creates nothing: the file goes to the error folder
    with the errors of the import as message. *)
Theorem import_without_workout app file_path pre owner rest user sport
    content w out w1 f1 :
  let w0 := with_log (log w ++ [(INFO, "Processing file: " +:+ file_path)]) w in
  PurePath.parts file_path = pre ++ SINK_FOLDER_NAME :: owner :: rest →
  SINK_FOLDER_NAME ∉ pre →
  rest ≠ [] →
  find_user owner w = Some user →
  find_sport (sport_id_of (owner :: rest)) w = Some sport →
  User.suspended_at user = None →
  Fs.read file_path (fs w) = inr content →
  WorkoutsFromFileCreationService app user (sport_id_of (owner :: rest))
    (PurePath.name file_path) content w0
  = Ret ([], out) w1 →
  Fs.makedirs (destination_folder app ERROR_FOLDER_NAME owner) (fs w1)
    = inr f1 →
  _process_file app file_path w
  = (logger ERROR ("Failed to create workout: " +:+ out);;
     _move_to_error app file_path out) w1.
Proof.
  intros w0 Hp Hpre Hrest Hu Hs Hsusp Hread Himp Hm.
  rewrite (process_file_imports _ _ _ _ _ _ _ _ _ Hp Hpre Hrest Hu Hs Hsusp Hread).
  fold w0.
  assert (Hown : error_username file_path = owner)
    by by rewrite (error_username_with_sink _ _ _ Hp Hpre).
  rewrite <-Hown in Hm.
  unfold try_except, mbind at 1, M_bind at 1, bind at 1. rewrite Himp. simpl.
  unfold mbind, M_bind, bind, logger.
  pose proof (move_to_error_returns app file_path out
                (with_log (log w1 ++ [(ERROR, "Failed to create workout: "
                                              +:+ out)]) w1) f1 Hm) as Hr.
  by destruct (_move_to_error app file_path out _).
Qed.

(** X8. An import that raises: the database session is rolled back, the
    error is logged, and the file goes to the error folder with the
    message of the exception. *)
Theorem import_raises app file_path pre owner rest user sport content w e w1 :
  let w0 := with_log (log w ++ [(INFO, "Processing file: " +:+ file_path)]) w in
  PurePath.parts file_path = pre ++ SINK_FOLDER_NAME :: owner :: rest →
  SINK_FOLDER_NAME ∉ pre →
  rest ≠ [] →
  find_user owner w = Some user →
  find_sport (sport_id_of (owner :: rest)) w = Some sport →
  User.suspended_at user = None →
  Fs.read file_path (fs w) = inr content →
  WorkoutsFromFileCreationService app user (sport_id_of (owner :: rest))
    (PurePath.name file_path) content w0
  = Raise e w1 →
  _process_file app file_path w
  = (db_session_rollback app;;
     logger ERROR ("Error processing workout: " +:+ str_exn e);;
     _move_to_error app file_path (str_exn e)) w1.
Proof.
  intros w0 Hp Hpre Hrest Hu Hs Hsusp Hread Himp.
  rewrite (process_file_imports _ _ _ _ _ _ _ _ _ Hp Hpre Hrest Hu Hs Hsusp Hread).
  fold w0. unfold try_except, mbind at 1, M_bind at 1, bind at 1.
  by rewrite Himp.
Qed.


(** X7, witness. *)
Lemma import_without_workout_witness :
  let w := example_world
             [(["uploads"; "sink"; "bob"], Fs.Dir);
              (["uploads"; "sink"; "bob"; "ride.fit"], Fs.File "DATA")]
             [bob] [cycling] in
  _process_file example_app_no_workout "/uploads/sink/bob/ride.fit" w
  = (logger ERROR "Failed to create workout: {'ride.fit': 'no tracks'}";;
     _move_to_error example_app_no_workout "/uploads/sink/bob/ride.fit"
       "{'ride.fit': 'no tracks'}")
      (with_log [(INFO, "Processing file: /uploads/sink/bob/ride.fit")] w).
Proof.
  intros w.
  refine (import_without_workout example_app_no_workout
    "/uploads/sink/bob/ride.fit" ["/"; "uploads"] "bob" ["ride.fit"] bob
    cycling "DATA" w "{'ride.fit': 'no tracks'}"
    (with_log [(INFO, "Processing file: /uploads/sink/bob/ride.fit")] w)
    (fs_after (Fs.makedirs "/uploads/sink/error/bob") (fs w))
    _ _ _ _ _ _ _ _ _);
    [reflexivity|apply (bool_decide_unpack _); vm_compute; exact I
    |discriminate|reflexivity|reflexivity|reflexivity|reflexivity|reflexivity
    |apply (succeeds_fs_after (Fs.makedirs _)); vm_compute; reflexivity].
Defined.

(** X8, witness. *)
Lemma import_raises_witness :
  let w := example_world
             [(["uploads"; "sink"; "bob"], Fs.Dir);
              (["uploads"; "sink"; "bob"; "ride.fit"], Fs.File "DATA")]
             [bob] [cycling] in
  _process_file example_app_raising "/uploads/sink/bob/ride.fit" w
  = (logger DEBUG "ROLLBACK";;
     logger ERROR "Error processing workout: invalid file";;
     _move_to_error example_app_raising "/uploads/sink/bob/ride.fit"
       "invalid file")
      (with_log [(INFO, "Processing file: /uploads/sink/bob/ride.fit")] w).
Proof.
  intros w.
  refine (import_raises example_app_raising
    "/uploads/sink/bob/ride.fit" ["/"; "uploads"] "bob" ["ride.fit"] bob
    cycling "DATA" w (RuntimeError "invalid file")
    (with_log [(INFO, "Processing file: /uploads/sink/bob/ride.fit")] w)
    _ _ _ _ _ _ _ _);
    [reflexivity|apply (bool_decide_unpack _); vm_compute; exact I
    |discriminate|reflexivity|reflexivity|reflexivity|reflexivity|reflexivity].
Defined.


(** ** What leaves the file processor *)

Lemma bind_raise_inv {A B} (m : M A) (k : A → M B) w e w' :
  (m ≫= k) w = Raise e w' →
  m w = Raise e w' ∨ ∃ a w1, m w = Ret a w1 ∧ k a w1 = Raise e w'.
Proof.
  unfold mbind, M_bind, bind. destruct (m w) as [a w1|e1 w1].
  - right. by exists a, w1.
  - intros [= -> ->]. by left.
Qed.

Lemma try_except_raise_inv {A} (m : M A) h w e w' :
  try_except m h w = Raise e w' →
  ∃ e1 w1, m w = Raise e1 w1 ∧ h e1 w1 = Raise e w'.
Proof.
  unfold try_except. destruct (m w) as [a w1|e1 w1]; [done|].
  by exists e1, w1.
Qed.

Lemma logged_raise_inv {A} lvl msg (k : M A) w e w' :
  (logger lvl msg;; k) w = Raise e w' →
  k (with_log (log w ++ [(lvl, msg)]) w) = Raise e w'.
Proof. done. Qed.

(** What the router raises is what making the error folder raised. *)
Lemma move_to_error_raise_inv app src msg w e w' :
  _move_to_error app src msg w = Raise e w' →
  Fs.makedirs (destination_folder app ERROR_FOLDER_NAME (error_username src))
    (fs w) = inl e.
Proof.
  intros H.
  destruct (Fs.makedirs _ (fs w)) as [e1|f1] eqn:Hm.
  - rewrite (move_to_error_raises _ _ _ _ _ Hm) in H. by injection H as ->.
  - destruct (move_file_spec app src _ _ w f1 Hm) as (w1 & Hmv & _).
    destruct (move_to_error_spec app src msg w w1 Hmv) as (w2 & Hr & _).
    by rewrite Hr in H.
Qed.

(** X10. No exception of the import, of the parser or of the reading of
    the file leaves [_process_file]. Where the roll-back of the session
    does not raise, an exception that leaves it is the one [os.makedirs]
    raises on the error folder of the file, in the file system that the
    call leaves: it was raised by [_move_to_error], in the world the call
    leaves and without changing it. *)
Theorem process_file_raises_only_makedirs app file_path w e w' :
  (∀ w0, raised (db_session_rollback app w0) = false) →
  _process_file app file_path w = Raise e w' →
  Fs.makedirs
    (destination_folder app ERROR_FOLDER_NAME (error_username file_path))
    (fs w') = inl e
  ∧ ∃ error_msg, _move_to_error app file_path error_msg w' = Raise e w'.
Proof.
  intros Hroll H.
  assert (Hlog : ∀ lvl text msg w0,
    (logger lvl text;; _move_to_error app file_path msg) w0 = Raise e w' →
    Fs.makedirs (destination_folder app ERROR_FOLDER_NAME
                   (error_username file_path)) (fs w') = inl e
    ∧ ∃ error_msg, _move_to_error app file_path error_msg w' = Raise e w').
  { intros lvl text msg w0 H0%logged_raise_inv.
    pose proof (move_to_error_raise_inv _ _ _ _ _ _ H0) as Hm.
    pose proof (move_to_error_raises app file_path msg _ _ Hm) as Hr.
    rewrite Hr in H0. injection H0 as <-. eauto. }
  unfold _process_file in H. apply logged_raise_inv in H.
  apply bind_raise_inv in H as [H|([e1|[[user|] sport_id]] & w1 & _ & H)].
  { unfold attempt in H. by destruct (_parse_file_path file_path _). }
  { by apply Hlog in H. }
  2: { by apply Hlog in H. }
  apply bind_raise_inv in H as [H|([sport|] & w2 & _ & H)]; [done| |].
  2: { by apply Hlog in H. }
  destruct (User.suspended_at user); [by apply Hlog in H|].
  apply bind_raise_inv in H as [H|([e1|content] & w3 & _ & H)].
  { unfold attempt in H. by destruct (read_bytes file_path _). }
  { by apply Hlog in H. }
  apply try_except_raise_inv in H as (e1 & w4 & _ & H).
  apply bind_raise_inv in H as [H|([] & w5 & _ & H)].
  { specialize (Hroll w4). by rewrite H in Hroll. }
  by apply Hlog in H.
Qed.

(** X10, witness: the error folder of [bob] is a regular file, and no
    sport exists. *)
Lemma process_file_raises_only_makedirs_witness :
  let w := example_world
             [(["uploads"; "sink"; "bob"], Fs.Dir);
              (["uploads"; "sink"; "bob"; "ride.fit"], Fs.File "DATA");
              (["uploads"; "sink"; "error"], Fs.Dir);
              (["uploads"; "sink"; "error"; "bob"], Fs.File "note")]
             [bob] [] in
  let w' := world_of (_process_file example_app
                        "/uploads/sink/bob/ride.fit" w) in
  Fs.makedirs "/uploads/sink/error/bob" (fs w')
  = inl (FileExistsError "/uploads/sink/error/bob").
Proof.
  intros w w'.
  refine (proj1 (process_file_raises_only_makedirs example_app
            "/uploads/sink/bob/ride.fit" w
            (FileExistsError "/uploads/sink/error/bob") w' _ _)).
  - intros w0. reflexivity.
  - apply raises_world_of. vm_compute. reflexivity.
Defined.

(** ** The router never loses the file *)

(** A move that succeeds puts a regular file at the destination or below
    it. *)
Lemma move_keeps_content src dst f f' c :
  Fs.lookup f (Fs.resolve src) = Some (Fs.File c) →
  Fs.move src dst f = inr f' →
  ∃ k, f' !! k = Some (Fs.File c) ∧ Fs.resolve dst `prefix_of` k.
Proof.
  intros Hs Hm. unfold Fs.move in Hm. rewrite Hs in Hm.
  destruct (Fs.is_dir f (Fs.resolve dst)) eqn:Hd; simpl in Hm.
  - destruct (Fs.is_present f _); [done|].
    destruct (Fs.is_dir f (Fs.parent _)); [|done]. injection Hm as <-.
    eexists. split; [apply lookup_insert_eq|apply move_target_extends].
  - destruct (Fs.is_dir f (Fs.parent _)); [|done]. injection Hm as <-.
    eexists. split; [apply lookup_insert_eq|done].
Qed.

(** X11. When [_move_file] returns, the regular file it was given is still
    there: at its source, when the move failed, or in the destination
    folder. *)
Theorem move_file_never_loses app src dest_type username w w' c :
  Fs.lookup (fs w) (Fs.resolve src) = Some (Fs.File c) →
  _move_file app src dest_type username w = Ret tt w' →
  ∃ k, fs w' !! k = Some (Fs.File c)
    ∧ (k = Fs.resolve src
       ∨ ∃ x rest, k = Fs.resolve (destination_folder app dest_type username)
                       ++ x :: rest).
Proof.
  intros Hs Hret.
  destruct (Fs.makedirs (destination_folder app dest_type username) (fs w))
    as [e|f1] eqn:Hm.
  { by rewrite (move_file_raises _ _ _ _ _ _ Hm) in Hret. }
  pose proof (makedirs_made _ _ _ Hm) as Hd.
  pose proof (makedirs_keeps_lookup _ _ _ _ _ Hm Hs) as Hs1.
  destruct (move_file_spec app src dest_type username w f1 Hm)
    as (w'' & Hr & _ & _ & _ & _ & Hf).
  rewrite Hr in Hret. injection Hret as ->.
  destruct (Fs.move _ _ f1) as [e|f2] eqn:Hmv; destruct Hf as [-> _].
  - exists (Fs.resolve src). split; [|by left].
    by apply lookup_file_key in Hs1 as [_ ?].
  - destruct (move_keeps_content _ _ _ _ _ Hs1 Hmv) as (k & Hk & Hpre).
    destruct (move_target_resolve app src dest_type username
                (clock w (ticks w)) f1 Hd) as (x & _ & Hx & _).
    exists k. split; [done|]. right. rewrite Hx in Hpre.
    destruct Hpre as [tl ->]. exists x, tl. by rewrite <-app_assoc.
Qed.

(** X11, witness: the name is taken in the processed folder of [bob]. *)
Lemma move_file_never_loses_witness :
  let w := example_world
             [(["uploads"; "sink"; "bob"], Fs.Dir);
              (["uploads"; "sink"; "bob"; "ride.fit"], Fs.File "DATA");
              (["uploads"; "sink"; "processed"], Fs.Dir);
              (["uploads"; "sink"; "processed"; "bob"], Fs.Dir);
              (["uploads"; "sink"; "processed"; "bob"; "ride.fit"],
               Fs.File "EARLIER")]
             [bob] [cycling] in
  ∃ k, fs (world_of (_move_file example_app "/uploads/sink/bob/ride.fit"
                       PROCESSED_FOLDER_NAME "bob" w)) !! k
       = Some (Fs.File "DATA").
Proof.
  intros w.
  destruct (move_file_never_loses example_app "/uploads/sink/bob/ride.fit"
              PROCESSED_FOLDER_NAME "bob" w
              (world_of (_move_file example_app "/uploads/sink/bob/ride.fit"
                           PROCESSED_FOLDER_NAME "bob" w)) "DATA")
    as (k & Hk & _).
  - reflexivity.
  - apply returns_world_of. vm_compute. reflexivity.
  - by exists k.
Defined.

(** X12. When [_move_to_error] returns, the regular file it was given is still
    there too: the companion file is never written over it. *)
Theorem move_to_error_never_loses app src msg w w' c :
  Fs.lookup (fs w) (Fs.resolve src) = Some (Fs.File c) →
  _move_to_error app src msg w = Ret tt w' →
  ∃ k, fs w' !! k = Some (Fs.File c)
    ∧ (k = Fs.resolve src
       ∨ ∃ x rest, k = Fs.resolve (destination_folder app ERROR_FOLDER_NAME
                                     (error_username src)) ++ x :: rest).
Proof.
  intros Hs Hret.
  destruct (Fs.makedirs (destination_folder app ERROR_FOLDER_NAME
                           (error_username src)) (fs w)) as [e|f1] eqn:Hm.
  { by rewrite (move_to_error_raises _ _ _ _ _ Hm) in Hret. }
  pose proof (makedirs_made _ _ _ Hm) as Hd.
  pose proof (makedirs_keeps_lookup _ _ _ _ _ Hm Hs) as Hs1.
  destruct (move_file_spec app src _ _ w f1 Hm)
    as (w1 & Hmv & _ & _ & _ & _ & Hf).
  destruct (move_to_error_spec app src msg w w1 Hmv)
    as (w2 & Hr & _ & _ & _ & _ & Hw).
  rewrite Hr in Hret. injection Hret as ->.
  pose proof (move_file_dirs_made _ _ _ _ _ _ Hmv) as Hd1.
  destruct (write_error_file app src
              (error_content (clock w1 (ticks w1)) msg) (fs w1) Hd1)
    as [Hk Hwr].
  assert (∃ k, fs w1 !! k = Some (Fs.File c)
            ∧ k ≠ Fs.resolve (error_file_path app src)
            ∧ (k = Fs.resolve src
               ∨ ∃ x rest, k = Fs.resolve (destination_folder app
                                 ERROR_FOLDER_NAME (error_username src))
                               ++ x :: rest)) as (k & Hk1 & Hne & Hwhere).
  { apply lookup_file_key in Hs1 as [Hn Hs1].
    destruct (Fs.move _ _ f1) as [e|f2] eqn:Hmove; destruct Hf as [Hf _].
    - exists (Fs.resolve src). rewrite Hf. split_and!; [done| |by left].
      rewrite Hk. unfold Fs.resolve. rewrite (segments_snoc_name src Hn).
      intros E. apply app_inj_tail in E as [_ E]. symmetry in E.
      by apply companion_fresh in E.
    - assert (Hs1' : Fs.lookup f1 (Fs.resolve src) = Some (Fs.File c))
        by by rewrite lookup_nonempty.
      destruct (move_keeps_content _ _ _ _ _ Hs1' Hmove) as (k & Hk2 & Hpre).
      exists k. rewrite Hf. split_and!; [done|..].
      + intros ->. by apply (error_file_not_target app src
                               (clock w (ticks w)) f1 Hd).
      + right.
        destruct (move_target_resolve app src ERROR_FOLDER_NAME
                    (error_username src) (clock w (ticks w)) f1 Hd)
          as (x & _ & Hx & _).
        rewrite Hx in Hpre. destruct Hpre as [tl ->].
        exists x, tl. by rewrite <-app_assoc. }
  exists k. split; [|done]. rewrite Hwr in Hw. rewrite Hk in Hne.
  destruct (fs w1 !! _) as [[?|]|]; destruct Hw as [-> _];
    by rewrite ?lookup_insert_ne.
Qed.

(** X12, witness: the drop of a file for an owner nobody knows. *)
Lemma move_to_error_never_loses_witness :
  let w := example_world
             [(["uploads"; "sink"; "eve"], Fs.Dir);
              (["uploads"; "sink"; "eve"; "ride.fit"], Fs.File "DATA")]
             [bob] [cycling] in
  ∃ k, fs (world_of (_move_to_error example_app "/uploads/sink/eve/ride.fit"
                       "Could not determine user" w)) !! k
       = Some (Fs.File "DATA").
Proof.
  intros w.
  destruct (move_to_error_never_loses example_app "/uploads/sink/eve/ride.fit"
              "Could not determine user" w
              (world_of (_move_to_error example_app
                           "/uploads/sink/eve/ride.fit"
                           "Could not determine user" w)) "DATA")
    as (k & Hk & _).
  - reflexivity.
  - apply returns_world_of. vm_compute. reflexivity.
  - by exists k.
Defined.

(** ** Two failures of files of one name *)






(** ** The extension of a file *)

Lemma rsplit1_none c s : has_char c s = false → PyStr.rsplit1 c s = None.
Proof.
  induction s as [|a s IH]; [done|]. simpl. intros H.
  apply orb_false_elim in H as [Ha Hs]. rewrite (IH Hs).
  apply bool_decide_eq_false in Ha. by rewrite decide_False.
Qed.

Lemma rsplit1_last c pre post :
  has_char c post = false →
  PyStr.rsplit1 c (pre +:+ String c post) = Some (pre, post).
Proof.
  intros H. induction pre as [|a pre IH].
  - rewrite app_empty_l. simpl. rewrite (rsplit1_none _ _ H).
    by rewrite decide_True.
  - rewrite app_cons. simpl. by rewrite IH.
Qed.

Lemma lower_char_not_dot a : a ≠ "."%char → PyStr.lower_char a ≠ "."%char.
Proof. destruct a as [[] [] [] [] [] [] [] []]; by vm_compute. Qed.

(** The extension of a name [stem.ext]: the text after the last dot, in
    lower case. *)
Lemma extension_suffixed p stem ext :
  PurePath.name p = stem +:+ "." +:+ ext →
  stem ≠ "" → ext ≠ "" → has_char "." ext = false →
  extension p = PyStr.lower ext.
Proof.
  intros Hn Hstem Hext Hdot. unfold extension, PurePath.suffix.
  rewrite Hn. change ("." +:+ ext) with (String "." ext).
  rewrite (rsplit1_last _ _ _ Hdot).
  destruct stem as [|a stem]; [done|]. destruct ext as [|b ext]; [done|].
  simpl in Hdot. apply orb_false_elim in Hdot as [Hb%bool_decide_eq_false _].
  simpl. by rewrite decide_False by by apply lower_char_not_dot.
Qed.

(** A name without dot, and a name whose only dot is its first
    character, have no extension. *)
Lemma extension_unsuffixed p :
  has_char "." (PurePath.name p) = false
  ∨ (∃ rest, PurePath.name p = "." +:+ rest ∧ has_char "." rest = false) →
  extension p = "".
Proof.
  unfold extension, PurePath.suffix. intros [H|(rest & -> & H)].
  - by rewrite (rsplit1_none _ _ H).
  - change ("." +:+ rest) with ("" +:+ String "." rest).
    by rewrite (rsplit1_last _ _ _ H).
Qed.

(** ** What the event handler takes and what it leaves *)

Lemma on_created_ignores app event w :
  is_directory event = true ∨ allowed_extension app (src_path event) = false →
  on_created app event w = Ret tt w.
Proof.
  intros [H|H]; unfold on_created; rewrite H; [done|].
  by destruct (is_directory event).
Qed.

(** X14. The event handler takes a file by its extension whatever the case
    of its letters: an event for a file [stem.ext], where the text after
    the last dot is an allowed extension once in lower case, is
    processed. *)
Theorem on_created_processes app event stem ext w :
  is_directory event = false →
  PurePath.name (src_path event) = stem +:+ "." +:+ ext →
  stem ≠ "" → ext ≠ "" → has_char "." ext = false →
  PyStr.lower ext ∈ WORKOUT_ALLOWED_EXTENSIONS app →
  on_created app event w = _process_file app (src_path event) w.
Proof.
  intros Hd Hn Hstem Hext Hdot Hin. unfold on_created, allowed_extension.
  rewrite Hd, (extension_suffixed _ _ _ Hn Hstem Hext Hdot).
  unfold PyStr.mem. by rewrite bool_decide_eq_true_2.
Qed.

(** X14, witness. *)
Lemma on_created_processes_witness :
  let w := example_world
             [(["uploads"; "sink"; "bob"], Fs.Dir);
              (["uploads"; "sink"; "bob"; "Ride.v2.FIT"], Fs.File "DATA")]
             [bob] [cycling] in
  on_created example_app
    {| is_directory := false; src_path := "/uploads/sink/bob/Ride.v2.FIT" |} w
  = _process_file example_app "/uploads/sink/bob/Ride.v2.FIT" w.
Proof.
  intros w.
  refine (on_created_processes example_app
            {| is_directory := false;
               src_path := "/uploads/sink/bob/Ride.v2.FIT" |}
            "Ride.v2" "FIT" w _ _ _ _ _ _);
    [reflexivity|reflexivity|discriminate|discriminate|reflexivity
    |apply (bool_decide_unpack _); vm_compute; exact I].
Defined.

(** X15. The companion files the router writes are not taken for files to
    import: where [error] is no allowed extension, the event of a file
    whose name ends in [.error] changes nothing. *)
Theorem on_created_skips_companion app event x w :
  PurePath.name (src_path event) = x +:+ ".error" →
  x ≠ "" →
  "error" ∉ WORKOUT_ALLOWED_EXTENSIONS app →
  on_created app event w = Ret tt w.
Proof.
  intros Hn Hx Hout. apply on_created_ignores. right.
  unfold allowed_extension, PyStr.mem.
  rewrite (extension_suffixed _ x "error") by done.
  by rewrite bool_decide_eq_false_2.
Qed.

(** X15, witness. *)
Lemma on_created_skips_companion_witness :
  let w := example_world
             [(["uploads"; "sink"; "error"], Fs.Dir);
              (["uploads"; "sink"; "error"; "bob"], Fs.Dir);
              (["uploads"; "sink"; "error"; "bob"; "ride.fit.error"],
               Fs.File "Timestamp")]
             [bob] [cycling] in
  on_created example_app
    {| is_directory := false;
       src_path := "/uploads/sink/error/bob/ride.fit.error" |} w
  = Ret tt w.
Proof.
  intros w.
  refine (on_created_skips_companion example_app
            {| is_directory := false;
               src_path := "/uploads/sink/error/bob/ride.fit.error" |}
            "ride.fit" w _ _ _);
    [reflexivity|discriminate
    |apply (bool_decide_unpack _); vm_compute; exact I].
Defined.

(** X16. A file whose name has no dot, or whose only dot is the first
    character of its name (as [.gpx]), has the empty extension: the event
    handler leaves it where the empty text is no allowed extension. *)
Theorem on_created_skips_unsuffixed app event w :
  has_char "." (PurePath.name (src_path event)) = false
  ∨ (∃ rest, PurePath.name (src_path event) = "." +:+ rest
             ∧ has_char "." rest = false) →
  "" ∉ WORKOUT_ALLOWED_EXTENSIONS app →
  on_created app event w = Ret tt w.
Proof.
  intros Hn Hout. apply on_created_ignores. right.
  unfold allowed_extension, PyStr.mem.
  rewrite (extension_unsuffixed _ Hn).
  by rewrite bool_decide_eq_false_2.
Qed.

(** X16, witness. *)
Lemma on_created_skips_unsuffixed_witness :
  let w := example_world
             [(["uploads"; "sink"; "bob"], Fs.Dir);
              (["uploads"; "sink"; "bob"; ".gpx"], Fs.File "DATA")]
             [bob] [cycling] in
  on_created example_app
    {| is_directory := false; src_path := "/uploads/sink/bob/.gpx" |} w
  = Ret tt w.
Proof.
  intros w.
  refine (on_created_skips_unsuffixed example_app
            {| is_directory := false; src_path := "/uploads/sink/bob/.gpx" |}
            w _ _).
  - right. exists "gpx". split; reflexivity.
  - apply (bool_decide_unpack _). vm_compute. exact I.
Defined.

(** ** The sweep and the event handler *)

(** The name of a path that ends in a component is that component. *)
Lemma name_join_component a x :
  component x → PurePath.name (OsPath.join a x) = x.
Proof.
  intros Hx. unfold PurePath.name.
  rewrite (segments_join_component a x Hx). apply List.last_last.
Qed.

(** The extension is the one of the name. *)
Lemma extension_join_component a x :
  component x → extension (OsPath.join a x) = extension x.
Proof.
  intros Hx. unfold extension, PurePath.suffix.
  rewrite (name_join_component a x Hx).
  unfold PurePath.name. by rewrite (segments_component x Hx).
Qed.

(** X17. The sweep tests the extension of the bare file name and the event
    handler the one of the whole path, and they agree: every file the
    sweep hands to the processor is a file the event handler would have
    handed to it. *)
Theorem sweep_agrees_with_on_created app tree e w :
  e ∈ sweep_targets (allowed_extension app) tree →
  component e.2 →
  on_created app
    {| is_directory := false;
       src_path := walk_path (get_sink_folder_path app) e |} w
  = _process_file app (walk_path (get_sink_folder_path app) e) w.
Proof.
  intros He Hc. apply sweep_targets_spec in He as (_ & _ & Hal).
  unfold on_created, allowed_extension, walk_path in *. simpl.
  by rewrite (extension_join_component _ _ Hc), Hal.
Qed.

(** X17, witness. *)
Lemma sweep_agrees_with_on_created_witness :
  let tree := Dnode [("bob", Dnode [] ["ride.FIT"; "notes.txt"])] [] in
  let w := example_world
             [(["uploads"; "sink"; "bob"], Fs.Dir);
              (["uploads"; "sink"; "bob"; "ride.FIT"], Fs.File "DATA")]
             [bob] [cycling] in
  on_created example_app
    {| is_directory := false; src_path := "/uploads/sink/bob/ride.FIT" |} w
  = _process_file example_app "/uploads/sink/bob/ride.FIT" w.
Proof.
  intros tree w.
  refine (sweep_agrees_with_on_created example_app tree
            (["bob"], "ride.FIT") w _ _).
  - apply (bool_decide_unpack _). vm_compute. exact I.
  - by repeat split.
Defined.

(** ** Setting the folders up *)

(** [os.makedirs] returns when no regular file stands on the way. *)
Lemma makedirs_go_returns p todo : ∀ seen f,
  (∀ pre c, pre ≠ [] → pre `prefix_of` todo →
            f !! (seen ++ pre) ≠ Some (Fs.File c)) →
  ∃ f', Fs.makedirs_go p seen todo f = inr f'.
Proof.
  induction todo as [|x todo IH]; intros seen f H; simpl; [by eexists|].
  assert (Hnext : ∀ g : Fs.t, (∀ k, k ≠ seen ++ [x] → g !! k = f !! k) →
            ∀ pre c, pre ≠ [] → pre `prefix_of` todo →
              g !! ((seen ++ [x]) ++ pre) ≠ Some (Fs.File c)).
  { intros g Hg pre c Hpre Hp. rewrite Hg.
    - rewrite <-app_assoc. apply H; [done|]. by apply prefix_cons.
    - intros E. apply (f_equal length) in E. rewrite !length_app in E.
      destruct pre; [done|]. simpl in E. lia. }
  destruct (f !! (seen ++ [x])) as [[c|]|] eqn:E.
  - exfalso. apply (H [x] c); [done| |done]. by apply prefix_cons, prefix_nil.
  - apply IH, Hnext. done.
  - apply IH, Hnext. intros k Hk. by rewrite lookup_insert_ne.
Qed.

Lemma makedirs_returns p f :
  (∀ k c, k ≠ [] → k `prefix_of` Fs.resolve p → f !! k ≠ Some (Fs.File c)) →
  ∃ f', Fs.makedirs p f = inr f'.
Proof. intros H. apply makedirs_go_returns. intros pre c ??. by apply H. Qed.

(** [os.makedirs] raises when a regular file stands on the way. *)
Lemma makedirs_blocked p f k c :
  k ≠ [] → k `prefix_of` Fs.resolve p → f !! k = Some (Fs.File c) →
  ∃ e, Fs.makedirs p f = inl e.
Proof.
  intros Hk Hp Hf. destruct (Fs.makedirs p f) as [e|f'] eqn:Hm; [by eexists|].
  pose proof (makedirs_made _ _ _ Hm _ Hk Hp).
  pose proof (makedirs_keeps _ _ _ _ _ Hm Hf). congruence.
Qed.

Lemma component_processed : component PROCESSED_FOLDER_NAME.
Proof. by repeat split. Qed.

Lemma component_error : component ERROR_FOLDER_NAME.
Proof. by repeat split. Qed.

(** [setup_folders] in terms of the three [os.makedirs]. *)
Lemma setup_folders_inv app w w' :
  setup_folders app w = Ret tt w' →
  ∃ fa fb,
    Fs.makedirs (get_sink_folder_path app) (fs w) = inr fa
    ∧ Fs.makedirs (OsPath.join (get_sink_folder_path app)
                     PROCESSED_FOLDER_NAME) fa = inr fb
    ∧ Fs.makedirs (OsPath.join (get_sink_folder_path app)
                     ERROR_FOLDER_NAME) fb = inr (fs w')
    ∧ users w' = users w ∧ sports w' = sports w
    ∧ clock w' = clock w ∧ ticks w' = ticks w
    ∧ ∃ text, log w' = log w ++
        [(INFO, "Sink folder initialized at: " +:+ get_sink_folder_path app);
         (INFO, text)].
Proof.
  unfold setup_folders. munfold. simpl.
  destruct (Fs.makedirs (get_sink_folder_path app) (fs w)) as [e|fa] eqn:Ha;
    [done|]. simpl.
  destruct (Fs.makedirs (OsPath.join _ PROCESSED_FOLDER_NAME) fa)
    as [e|fb] eqn:Hb; [done|]. simpl.
  destruct (Fs.makedirs (OsPath.join _ ERROR_FOLDER_NAME) fb)
    as [e|fc] eqn:Hc; [done|]. simpl.
  intros H. injection H as <-. simpl. exists fa, fb.
  split_and!; try done. eexists. by rewrite <-app_assoc.
Qed.

(** X18. When [setup_folders] returns, the sink folder and its [processed] and
    [error] folders are directories, every entry that was there is still
    there, what is new is a directory on the way to these folders, and a
    second run returns and changes nothing in the file system. *)
Theorem setup_folders_makes app w w' :
  let sink := Fs.resolve (get_sink_folder_path app) in
  setup_folders app w = Ret tt w' →
  Fs.is_dir (fs w') sink = true
  ∧ Fs.is_dir (fs w') (sink ++ [PROCESSED_FOLDER_NAME]) = true
  ∧ Fs.is_dir (fs w') (sink ++ [ERROR_FOLDER_NAME]) = true
  ∧ (∀ k v, fs w !! k = Some v → fs w' !! k = Some v)
  ∧ (∀ k, fs w' !! k = fs w !! k
          ∨ (fs w !! k = None ∧ fs w' !! k = Some Fs.Dir
             ∧ (k `prefix_of` sink ++ [PROCESSED_FOLDER_NAME]
                ∨ k `prefix_of` sink ++ [ERROR_FOLDER_NAME])))
  ∧ ∃ w'', setup_folders app w' = Ret tt w'' ∧ fs w'' = fs w'.
Proof.
  intros sink H.
  destruct (setup_folders_inv app w w' H) as (fa & fb & Ha & Hb & Hc & _).
  pose proof (resolve_join_component (get_sink_folder_path app) _
                component_processed) as Rp.
  pose proof (resolve_join_component (get_sink_folder_path app) _
                component_error) as Re.
  fold sink in Rp, Re.
  assert (Da : dirs_made (get_sink_folder_path app) (fs w')).
  { intros k Hk Hp. apply (makedirs_keeps _ _ _ _ _ Hc),
      (makedirs_keeps _ _ _ _ _ Hb). by apply (makedirs_made _ _ _ Ha). }
  assert (Db : dirs_made (OsPath.join (get_sink_folder_path app)
                            PROCESSED_FOLDER_NAME) (fs w')).
  { intros k Hk Hp. apply (makedirs_keeps _ _ _ _ _ Hc).
    by apply (makedirs_made _ _ _ Hb). }
  pose proof (makedirs_made _ _ _ Hc) as Dc.
  split_and!.
  - by apply dirs_made_is_dir.
  - rewrite <-Rp. by apply dirs_made_is_dir.
  - rewrite <-Re. by apply dirs_made_is_dir.
  - intros k v Hk. by apply (makedirs_keeps _ _ _ _ _ Hc),
      (makedirs_keeps _ _ _ _ _ Hb), (makedirs_keeps _ _ _ _ _ Ha).
  - intros k.
    destruct (makedirs_changes _ _ _ k Ha) as [Ea|(Na & Sa & Pa)];
    destruct (makedirs_changes _ _ _ k Hb) as [Eb|(Nb & Sb & Pb)];
    destruct (makedirs_changes _ _ _ k Hc) as [Ec|(Nc & Sc & Pc)];
    rewrite ?Rp, ?Re in *; fold sink in Pa || idtac.
    all: try (left; congruence).
    all: try congruence.
    + right. split_and!; [congruence|done|by right].
    + right. split_and!; [congruence|congruence|by left].
    + right. split_and!; [done|congruence|]. left.
      by apply prefix_app_r.
  - unfold setup_folders. munfold. simpl.
    rewrite (makedirs_again _ _ Da). simpl.
    rewrite (makedirs_again _ _ Db). simpl.
    rewrite (makedirs_again _ _ Dc). simpl.
    by eexists.
Qed.

(** X18, witness: an upload folder with nothing in it. *)
Lemma setup_folders_makes_witness :
  let w := {| fs := ∅; users := []; sports := []; log := [];
              clock := λ _, example_now; ticks := 0 |} in
  Fs.is_dir (fs (world_of (setup_folders example_app w)))
    ["uploads"; "sink"; "error"] = true.
Proof.
  intros w.
  refine (proj1 (proj2 (proj2 (setup_folders_makes example_app w
            (world_of (setup_folders example_app w)) _)))).
  apply returns_world_of. vm_compute. reflexivity.
Defined.

(** X19. [setup_folders] returns exactly when no regular file stands at the
    sink folder, at its [processed] or [error] folder, or at a folder
    above them; otherwise it raises, and it has logged nothing. *)
Theorem setup_folders_returns_iff app w :
  let sink := Fs.resolve (get_sink_folder_path app) in
  let free := ∀ k c, k ≠ [] →
    k `prefix_of` sink ++ [PROCESSED_FOLDER_NAME]
    ∨ k `prefix_of` sink ++ [ERROR_FOLDER_NAME] →
    fs w !! k ≠ Some (Fs.File c) in
  ((∃ w', setup_folders app w = Ret tt w') ↔ free)
  ∧ (∀ e w', setup_folders app w = Raise e w' → log w' = log w).
Proof.
  intros sink free.
  pose proof (resolve_join_component (get_sink_folder_path app) _
                component_processed) as Rp.
  pose proof (resolve_join_component (get_sink_folder_path app) _
                component_error) as Re.
  fold sink in Rp, Re.
  split; [split|].
  - intros [w' H] k c Hk Hp Hf.
    destruct (setup_folders_inv app w w' H) as (fa & fb & Ha & Hb & Hc & _).
    pose proof (makedirs_keeps _ _ _ _ _ Ha Hf) as Hfa.
    pose proof (makedirs_keeps _ _ _ _ _ Hb Hfa) as Hfb.
    destruct Hp as [Hp|Hp].
    + rewrite <-Rp in Hp. pose proof (makedirs_made _ _ _ Hb _ Hk Hp).
      congruence.
    + rewrite <-Re in Hp. pose proof (makedirs_made _ _ _ Hc _ Hk Hp).
      pose proof (makedirs_keeps _ _ _ _ _ Hc Hfb). congruence.
  - intros Hfree.
    destruct (makedirs_returns (get_sink_folder_path app) (fs w)) as [fa Ha].
    { intros k c Hk Hp. apply Hfree; [done|]. left. by apply prefix_app_r. }
    assert (Hfa : ∀ k c, k ≠ [] →
              k `prefix_of` sink ++ [PROCESSED_FOLDER_NAME]
              ∨ k `prefix_of` sink ++ [ERROR_FOLDER_NAME] →
              fa !! k ≠ Some (Fs.File c)).
    { intros k c Hk Hp.
      destruct (makedirs_changes _ _ _ k Ha) as [->|(_ & -> & _)];
        [by apply Hfree|done]. }
    destruct (makedirs_returns (OsPath.join (get_sink_folder_path app)
                PROCESSED_FOLDER_NAME) fa) as [fb Hb].
    { intros k c Hk Hp. rewrite Rp in Hp. apply Hfa; [done|by left]. }
    destruct (makedirs_returns (OsPath.join (get_sink_folder_path app)
                ERROR_FOLDER_NAME) fb) as [fc Hc].
    { intros k c Hk Hp. rewrite Re in Hp.
      destruct (makedirs_changes _ _ _ k Hb) as [->|(_ & -> & _)];
        [apply Hfa; [done|by right]|done]. }
    unfold setup_folders. munfold. simpl.
    rewrite Ha. simpl. rewrite Hb. simpl. rewrite Hc. simpl. by eexists.
  - intros e w'. unfold setup_folders. munfold. simpl.
    destruct (Fs.makedirs (get_sink_folder_path app) (fs w)) as [?|fa];
      simpl; [by intros [= _ <-]|].
    destruct (Fs.makedirs (OsPath.join _ PROCESSED_FOLDER_NAME) fa) as [?|fb];
      simpl; [by intros [= _ <-]|].
    destruct (Fs.makedirs (OsPath.join _ ERROR_FOLDER_NAME) fb) as [?|fc];
      simpl; [by intros [= _ <-]|done].
Qed.
